(** * RAG chat client: session store, license gate and API client

    A shallow embedding of [src/services/chatStorage.ts] (the
    [ChatStorageService] class), [src/services/license.ts]
    ([LicenseService]) and the revisions of [src/services/api.ts]
    ([ApiService]), together with the properties the specification states
    about them and further properties read off the code.  Of the components,
    the parts that do not depend on React's state are embedded as well: the
    selection toggle of [DocumentSelector] and the upload-session identifier
    of [DocumentManager].

    The services are TypeScript compiled to JavaScript, so the values they
    handle at run time are untyped: whatever [JSON.parse] returns from
    [localStorage] or from an imported file.  The embedding therefore works
    on a small model of JavaScript values; the TypeScript interfaces are
    used only for the arguments the application passes in.

    What the model leaves out:
    - a number is the rational it denotes (no NaN, no infinity, no rounding);
      where the code divides, multiplies, rounds or sorts
      ([getSessionStats]), the operation is a parameter ([Numerics]), and of
      [sort] only what ECMAScript guarantees is assumed ([SortLaws]);
    - a string is a sequence of 8-bit characters;
    - an object is a finite map, so the order of its properties is not kept;
    - [localStorage] never refuses an operation (no quota, no security
      error): the [catch] blocks that guard its calls are kept, and never
      run;
    - [importSessions] is its [onload] handler applied to the text of the
      file, and [exportSessions] returns the file it offers for download. *)

From Stdlib Require Import Ascii QArith Qround Qabs.
From stdpp Require Import gmap strings list fin_maps pretty countable sorting.

Set Warnings "-register-all".

Local Open Scope Z_scope.
Local Open Scope string_scope.
Local Open Scope list_scope.

(** ** JavaScript values *)

(** What [JSON.parse] can return.  A JSON number is kept as the rational it
    denotes; an object is a finite map from property names to values. *)
Inductive Json : Type :=
| JNull
| JBool (b : bool)
| JNum (q : Q)
| JStr (s : string)
| JArr (l : list Json)
| JObj (o : gmap string Json).

(** Values held in memory by the services: JSON data, plus [undefined] and
    [Date] objects.  A [Date] carries its time value in milliseconds, [None]
    for an Invalid Date. *)
Inductive JsValue : Type :=
| VUndefined
| VNull
| VBool (b : bool)
| VNum (q : Q)
| VStr (s : string)
| VDate (t : option Z)
| VArr (l : list JsValue)
| VObj (o : gmap string JsValue).

Abbreviation obj := (gmap string JsValue).

(** A JSON value seen as a JavaScript value (the result of [JSON.parse]). *)
Fixpoint inject (j : Json) : JsValue :=
  match j with
  | JNull => VNull
  | JBool b => VBool b
  | JNum q => VNum q
  | JStr s => VStr s
  | JArr l => VArr (inject <$> l)
  | JObj o => VObj (inject <$> o)
  end.

(** Thrown values: [new TypeError(message)], [new SyntaxError(message)] and
    [new Error(message)], the last with the [isCorsError] flag the API client
    sets on some of its errors. *)
Inductive Exn : Type :=
| TypeError (message : string)
| SyntaxError (message : string)
| Error (message : string) (isCorsError : bool).

(** The errors the engine raises on [null.k] and on a call of something that
    is not a function. *)
Definition notAnObject : Exn := TypeError "Cannot read properties of null or undefined".
Definition notAFunction : Exn := TypeError "is not a function".

Inductive Completion (A : Type) : Type :=
| Normal (a : A)
| Throw (e : Exn).
Arguments Normal {A} a.
Arguments Throw {A} e.

Definition cbind {A B} (c : Completion A) (k : A → Completion B) : Completion B :=
  match c with
  | Normal a => k a
  | Throw e => Throw e
  end.

(** [l.map(f)] where [f] may throw: elements are visited left to right and
    the first exception aborts the traversal. *)
Fixpoint mapC {A B} (f : A → Completion B) (l : list A) : Completion (list B) :=
  match l with
  | [] => Normal []
  | x :: l' => cbind (f x) (λ y, cbind (mapC f l') (λ ys, Normal (y :: ys)))
  end.

(** ToBoolean. *)
Definition truthy (v : JsValue) : bool :=
  match v with
  | VUndefined | VNull => false
  | VBool b => b
  | VNum q => negb (Qeq_bool q 0)
  | VStr s => negb (String.eqb s "")
  | VDate _ | VArr _ | VObj _ => true
  end.

Definition typeof (v : JsValue) : string :=
  match v with
  | VUndefined => "undefined"
  | VNull => "object"
  | VBool _ => "boolean"
  | VNum _ => "number"
  | VStr _ => "string"
  | VDate _ | VArr _ | VObj _ => "object"
  end.

Definition isArray (v : JsValue) : bool :=
  match v with VArr _ => true | _ => false end.

(** [v.k] for the property names the services read ([id], [name],
    [messages], [createdAt], [updatedAt], [settings], [model], [temperature],
    [search_type], [timestamp], [detail]): none of them is inherited from a
    built-in prototype, so on anything but a plain object the read gives
    [undefined], and on [null] or [undefined] it throws. *)
Definition get (v : JsValue) (k : string) : Completion JsValue :=
  match v with
  | VUndefined | VNull => Throw notAnObject
  | VObj o => Normal (default VUndefined (o !! k))
  | _ => Normal VUndefined
  end.

Definition chars (s : string) : list JsValue :=
  (λ c, VStr (String c EmptyString)) <$> String.list_ascii_of_string s.

Definition indexed (l : list JsValue) : obj :=
  list_to_map (imap (λ i v, (pretty i, v)) l).

(** The own enumerable properties copied by an object spread [{...v}]. *)
Definition ownProps (v : JsValue) : obj :=
  match v with
  | VObj o => o
  | VArr l => indexed l
  | VStr s => indexed (chars s)
  | _ => ∅
  end.

(** [s.id === sessionId] with [sessionId] a string. *)
Definition strictEqStr (v : JsValue) (s : string) : bool :=
  match v with
  | VStr s' => String.eqb s' s
  | _ => false
  end.

(** ** The JavaScript run time

    The built-in functions the services call.  Their code is not part of the
    repository, so they are parameters of the development.  [Date_now k] and
    [Math_random k] are the results of the [k]-th call of [Date.now()]
    (equally [new Date()]) and of [Math.random().toString(36)]. *)
Class Runtime : Type := {
  JSON_parse : string → option Json;      (* [None]: throws a SyntaxError *)
  JSON_stringify : nat → Json → string;   (* first argument: indentation *)
  toISOString : Z → string;
  Date_parse : string → option Z;         (* [None]: NaN *)
  Date_toString : Z → string;
  Number_toString : Q → string;
  format : Z → string → string;           (* date-fns [format] *)
  Date_now : nat → Z;
  Math_random : nat → string;
}.

(** What the ECMAScript specification guarantees about them: serialising and
    parsing again gives the value back, for JSON texts and for ISO dates, and
    the empty text is not JSON. *)
Class RuntimeLaws (R : Runtime) : Prop := {
  JSON_parse_stringify : ∀ n j, JSON_parse (JSON_stringify n j) = Some j;
  JSON_parse_empty : JSON_parse "" = None;
  Date_parse_toISOString : ∀ t, Date_parse (toISOString t) = Some t;
}.

(** The built-ins [getSessionStats] calls besides: the floating-point
    division and multiplication, [Math.round], and [Array.prototype.sort]
    under a comparison function, whose result is [None] when it is NaN. *)
Class Numerics : Type := {
  Number_divide : Q → Q → Q;
  Number_multiply : Q → Q → Q;
  Math_round : Q → Q;
  Array_sort : ∀ A : Type, (A → A → option Q) → list A → list A;
}.
Arguments Array_sort {_ A} comparefn l.

(** SortCompare: the sign [sort] reads off the comparison function, NaN
    counting as [+0]. *)
Definition SortCompare {A} (comparefn : A → A → option Q) (x y : A) : comparison :=
  match comparefn x y with
  | Some v => (v ?= 0)%Q
  | None => Eq
  end.

(** ECMAScript's consistent comparator for the values of [l]. *)
Record consistentComparator {A} (comparefn : A → A → option Q) (l : list A) : Prop := {
  comparator_number : ∀ a b, a ∈ l → b ∈ l → is_Some (comparefn a b);
  comparator_refl : ∀ a, a ∈ l → SortCompare comparefn a a = Eq;
  comparator_sym : ∀ a b, a ∈ l → b ∈ l →
    SortCompare comparefn a b = Eq → SortCompare comparefn b a = Eq;
  comparator_trans_eq : ∀ a b c, a ∈ l → b ∈ l → c ∈ l →
    SortCompare comparefn a b = Eq → SortCompare comparefn b c = Eq →
    SortCompare comparefn a c = Eq;
  comparator_trans_lt : ∀ a b c, a ∈ l → b ∈ l → c ∈ l →
    SortCompare comparefn a b = Lt → SortCompare comparefn b c = Lt →
    SortCompare comparefn a c = Lt;
  comparator_trans_gt : ∀ a b c, a ∈ l → b ∈ l → c ∈ l →
    SortCompare comparefn a b = Gt → SortCompare comparefn b c = Gt →
    SortCompare comparefn a c = Gt;
}.

(** What ECMAScript guarantees about [sort]: the result holds the elements
    of the array, and under a consistent comparator no element comes after
    one it is smaller than.  With any other comparator the order is left to
    the implementation. *)
Class SortLaws (E : Numerics) : Prop := {
  Array_sort_Permutation : ∀ A (comparefn : A → A → option Q) l,
    Array_sort comparefn l ≡ₚ l;
  Array_sort_ordered : ∀ A (comparefn : A → A → option Q) l,
    consistentComparator comparefn l →
    ∀ (i j : nat) a b, (i < j)%nat →
      Array_sort comparefn l !! i = Some a → Array_sort comparefn l !! j = Some b →
      SortCompare comparefn b a ≠ Lt;
}.

Section Values.
Context {R : Runtime}.

(** ToString, as used by [Array.prototype.join] and [new Error(v)]. *)
Fixpoint ToString (v : JsValue) : string :=
  match v with
  | VUndefined => "undefined"
  | VNull => "null"
  | VBool b => if b then "true" else "false"
  | VNum q => Number_toString q
  | VStr s => s
  | VDate (Some t) => Date_toString t
  | VDate None => "Invalid Date"
  | VArr l =>
      String.concat ","
        ((λ x, match x with
               | VUndefined | VNull => ""
               | _ => ToString x
               end) <$> l)
  | VObj _ => "[object Object]"
  end.

Definition Qtruncate (q : Q) : Z :=
  if Qle_bool 0 q then Qfloor q else Qceiling q.

(** TimeClip: time values beyond 8.64e15 ms make an Invalid Date. *)
Definition TimeClip (q : Q) : option Z :=
  if Qle_bool (Qabs q) (inject_Z 8640000000000000) then Some (Qtruncate q) else None.

(** The time value of [new Date(v)]. *)
Definition Date_new (v : JsValue) : option Z :=
  match v with
  | VUndefined => None
  | VNull => Some 0
  | VBool b => Some (if b then 1 else 0)
  | VNum q => TimeClip q
  | VStr s => Date_parse s
  | VDate t => t
  | VArr _ | VObj _ => Date_parse (ToString v)
  end.

(** The JSON value [JSON.stringify] serialises for [v]: a [Date] is
    replaced by its [toJSON()], which is the ISO string or [null] for an
    Invalid Date; [undefined] becomes [null] inside an array and drops the
    property inside an object. *)
Fixpoint toJSON (v : JsValue) : Json :=
  match v with
  | VUndefined | VNull => JNull
  | VBool b => JBool b
  | VNum q => JNum q
  | VStr s => JStr s
  | VDate (Some t) => JStr (toISOString t)
  | VDate None => JNull
  | VArr l => JArr (toJSON <$> l)
  | VObj o =>
      JObj (omap (λ x, match x with
                       | VUndefined => None
                       | _ => Some (toJSON x)
                       end) o)
  end.

(** [JSON.stringify(v, null, indent)]; it returns [undefined] when [v] is
    [undefined]. *)
Definition stringify (indent : nat) (v : JsValue) : option string :=
  match v with
  | VUndefined => None
  | _ => Some (JSON_stringify indent (toJSON v))
  end.

(** [JSON.parse(text)]. *)
Definition parse (text : string) : Completion JsValue :=
  match JSON_parse text with
  | Some j => Normal (inject j)
  | None => Throw (SyntaxError "Unexpected token")
  end.

Definition digit36 (d : Z) : Ascii.ascii :=
  default "0"%char
    (String.get (Z.to_nat d) "0123456789abcdefghijklmnopqrstuvwxyz").

Fixpoint digits36 (fuel : nat) (n : Z) (acc : string) : string :=
  match fuel with
  | O => acc
  | S fuel' =>
      let acc' := String (digit36 (n mod 36)) acc in
      if (n / 36 =? 0)%Z then acc' else digits36 fuel' (n / 36) acc'
  end.

(** [n.toString(36)] for an integer [n]. *)
Definition toString36 (n : Z) : string :=
  if (n <? 0)%Z then "-" +:+ digits36 (S (Z.to_nat (Z.log2 (- n)))) (- n) ""
  else digits36 (S (Z.to_nat (Z.log2 n))) n "".

(** [s.substr(from)]. *)
Fixpoint substr (from : nat) (s : string) : string :=
  match from, s with
  | O, _ => s
  | S n, String _ s' => substr n s'
  | S _, EmptyString => EmptyString
  end.
End Values.

(** ** The browser state the services act on *)

Record World : Type := mkWorld {
  localStorage : gmap string string;
  ticks : nat;                (* clock readings made so far *)
  draws : nat;                (* random numbers drawn so far *)
  dispatched : list string;   (* events sent through [window.dispatchEvent] *)
}.

Definition setStorage (f : gmap string string → gmap string string) (w : World) : World :=
  mkWorld (f (localStorage w)) (ticks w) (draws w) (dispatched w).

(** A computation runs in a world and ends normally or by throwing; the
    effects made before a [throw] stay. *)
Definition M (A : Type) : Type := World → Completion A * World.

Definition ret {A} (a : A) : M A := λ w, (Normal a, w).
Definition throw {A} (e : Exn) : M A := λ w, (Throw e, w).
Definition bind {A B} (m : M A) (k : A → M B) : M B :=
  λ w, match m w with
       | (Normal a, w') => k a w'
       | (Throw e, w') => (Throw e, w')
       end.
Definition lift {A} (c : Completion A) : M A := λ w, (c, w).
Definition tryCatch {A} (body : M A) (handler : Exn → M A) : M A :=
  λ w, match body w with
       | (Normal a, w') => (Normal a, w')
       | (Throw e, w') => handler e w'
       end.

#[global] Instance M_ret : MRet M := @ret.
#[global] Instance M_bind : MBind M := λ A B k m, bind m k.
#[global] Instance Completion_ret : MRet Completion := @Normal.
#[global] Instance Completion_bind : MBind Completion := λ A B k c, cbind c k.

Definition getItem (key : string) : M (option string) :=
  λ w, (Normal (localStorage w !! key), w).
Definition setItem (key value : string) : M unit :=
  λ w, (Normal tt, setStorage <[key := value]> w).
Definition removeItem (key : string) : M unit :=
  λ w, (Normal tt, setStorage (delete key) w).
Definition dispatchEvent (name : string) : M unit :=
  λ w, (Normal tt, mkWorld (localStorage w) (ticks w) (draws w) (dispatched w ++ [name])).

Section Clock.
Context {R : Runtime}.

(** [Date.now()], and the time value of [new Date()]. *)
Definition now : M Z :=
  λ w, (Normal (Date_now (ticks w)),
        mkWorld (localStorage w) (S (ticks w)) (draws w) (dispatched w)).

(** [Math.random().toString(36)]. *)
Definition random36 : M string :=
  λ w, (Normal (Math_random (draws w)),
        mkWorld (localStorage w) (ticks w) (S (draws w)) (dispatched w)).
End Clock.

(** ** services/license.ts *)

Module LicenseService.
Definition STORAGE_KEY : string := "license_key".
Definition HEADER_NAME : string := "X-License-Key".

Definition headerName : string := HEADER_NAME.

Definition getKey : M (option string) :=
  tryCatch (getItem STORAGE_KEY) (λ _, mret None).

Definition setKey (key : string) : M unit :=
  tryCatch (setItem STORAGE_KEY key;; dispatchEvent "license:updated")
           (λ _, mret tt).

Definition clearKey : M unit :=
  tryCatch (removeItem STORAGE_KEY;; dispatchEvent "license:cleared")
           (λ _, mret tt).

Definition isSpace (c : Ascii.ascii) : bool :=
  let n := Ascii.nat_of_ascii c in
  ((9 <=? n) && (n <=? 13) || (n =? 32))%nat.

Fixpoint trimStart (s : string) : string :=
  match s with
  | String c s' => if isSpace c then trimStart s' else s
  | EmptyString => EmptyString
  end.

Definition trim (s : string) : string :=
  String.rev (trimStart (String.rev (trimStart s))).

Definition isPresent : M bool :=
  key ← getKey;
  mret (match key with
        | Some k => negb (String.eqb k "") && (0 <? String.length (trim k))%nat
        | None => false
        end).
End LicenseService.

(** ** types/index.ts: the arguments the application passes in *)

Inductive SearchType : Type := hybrid | semantic | keyword.

Definition SearchType_name (t : SearchType) : string :=
  match t with
  | hybrid => "hybrid"
  | semantic => "semantic"
  | keyword => "keyword"
  end.

(** [ChatSession['settings']]. *)
Record Settings : Type := mkSettings {
  model : string;
  temperature : Q;
  search_type : SearchType;
}.

(** [Partial<ChatSession['settings']>]: [None] is a field that is not
    provided. *)
Record PartialSettings : Type := mkPartialSettings {
  model_opt : option string;
  temperature_opt : option Q;
  search_type_opt : option SearchType;
}.

Inductive Role : Type := user | assistant.

Definition Role_name (r : Role) : string :=
  match r with user => "user" | assistant => "assistant" end.

Record Metadata : Type := mkMetadata {
  documents_retrieved : option Q;
  processing_time : option Q;
  used_search_type : option string;
}.

(** [Omit<ChatMessage, 'id' | 'timestamp'>]. *)
Record MessageInput : Type := mkMessageInput {
  role : Role;
  content : string;
  metadata : option Metadata;
}.

Definition optProp (k : string) (v : option JsValue) (o : obj) : obj :=
  match v with
  | Some x => <[k := x]> o
  | None => o
  end.

Definition settingsObject (s : Settings) : obj :=
  {[ "model" := VStr (model s);
     "temperature" := VNum (temperature s);
     "search_type" := VStr (SearchType_name (search_type s)) ]}.

Definition partialSettingsObject (p : PartialSettings) : obj :=
  optProp "model" (VStr <$> model_opt p)
    (optProp "temperature" (VNum <$> temperature_opt p)
       (optProp "search_type" (VStr ∘ SearchType_name <$> search_type_opt p) ∅)).

Definition metadataObject (m : Metadata) : obj :=
  optProp "documents_retrieved" (VNum <$> documents_retrieved m)
    (optProp "processing_time" (VNum <$> processing_time m)
       (optProp "search_type" (VStr <$> used_search_type m) ∅)).

Definition messageObject (m : MessageInput) : obj :=
  optProp "metadata" (VObj ∘ metadataObject <$> metadata m)
    {[ "role" := VStr (Role_name (role m)); "content" := VStr (content m) ]}.

(** [o.k] on a plain object. *)
Definition prop (o : obj) (k : string) : JsValue := default VUndefined (o !! k).

(** ** services/chatStorage.ts *)

Module ChatStorageService.
Section WithRuntime.
Context {R : Runtime}.

Definition STORAGE_KEY : string := "rag_chat_sessions".
Definition MAX_SESSIONS : nat := 50.

(** The callback of [session.messages.map]:
    [{...msg, timestamp: new Date(msg.timestamp)}]. *)
Definition reviveMessage (msg : JsValue) : Completion JsValue :=
  timestamp ← get msg "timestamp";
  mret (VObj (<["timestamp" := VDate (Date_new timestamp)]> (ownProps msg))).

(** [v.map(f)]: only an array has a [map] method. *)
Definition arrayMap {B} (f : JsValue → Completion B) (v : JsValue) : Completion (list B) :=
  match v with
  | VArr l => mapC f l
  | VUndefined | VNull => Throw notAnObject
  | _ => Throw notAFunction
  end.

(** The callback of [sessions.map] in [getSessions]. *)
Definition reviveSession (session : JsValue) : Completion obj :=
  createdAt ← get session "createdAt";
  updatedAt ← get session "updatedAt";
  messages ← get session "messages";
  messages' ← arrayMap reviveMessage messages;
  mret (<["messages" := VArr messages']>
          (<["updatedAt" := VDate (Date_new updatedAt)]>
             (<["createdAt" := VDate (Date_new createdAt)]> (ownProps session)))).

(** The [try] block of [getSessions]. *)
Definition getSessions_try : M (list obj) :=
  stored ← getItem STORAGE_KEY;
  match stored with
  | None | Some "" => mret []
  | Some text =>
      sessions ← lift (parse text);
      lift (arrayMap reviveSession sessions)
  end.

Definition getSessions : M (list obj) :=
  tryCatch getSessions_try (λ _, mret []).

Definition hasId (sessionId : string) (s : obj) : Prop :=
  strictEqStr (prop s "id") sessionId = true.

#[global] Instance hasId_dec sessionId s : Decision (hasId sessionId s).
Proof. unfold hasId. apply _. Defined.

Definition getSession (sessionId : string) : M (option obj) :=
  sessions ← getSessions;
  mret (snd <$> list_find (hasId sessionId) sessions).

Definition saveSessions (sessions : JsValue) : M unit :=
  tryCatch (setItem STORAGE_KEY (default "undefined" (stringify 0 sessions)))
           (λ _, mret tt).

Definition sessionArray (sessions : list obj) : JsValue := VArr (VObj <$> sessions).

Definition generateId : M string :=
  t ← now;
  r ← random36;
  mret (toString36 t +:+ substr 2 r).

Definition createSession (name : string) (settings : Settings) : M obj :=
  id ← generateId;
  createdAt ← now;
  updatedAt ← now;
  let newSession : obj :=
    {[ "id" := VStr id;
       "name" := VStr name;
       "messages" := VArr [];
       "createdAt" := VDate (Some createdAt);
       "updatedAt" := VDate (Some updatedAt);
       "settings" := VObj (settingsObject settings) ]} in
  sessions ← getSessions;
  let sessions := newSession :: sessions in
  let sessions :=
    if (MAX_SESSIONS <? length sessions)%nat then take MAX_SESSIONS sessions
    else sessions in
  saveSessions (sessionArray sessions);;
  mret newSession.

(** [sessions.findIndex(s => s.id === sessionId)]; [None] is [-1]. *)
Definition findIndex (sessionId : string) (sessions : list obj) : option nat :=
  fst <$> list_find (hasId sessionId) sessions.

Definition updateSessionName (sessionId name : string) : M bool :=
  sessions ← getSessions;
  match findIndex sessionId sessions with
  | None => mret false
  | Some sessionIndex =>
      let sessions := alter <["name" := VStr name]> sessionIndex sessions in
      t ← now;
      let sessions := alter <["updatedAt" := VDate (Some t)]> sessionIndex sessions in
      saveSessions (sessionArray sessions);;
      mret true
  end.

(** [s.messages.push(m)] on the session object [s]. *)
Definition pushMessage (m : obj) (s : obj) : Completion obj :=
  match prop s "messages" with
  | VArr l => Normal (<["messages" := VArr (l ++ [VObj m])]> s)
  | VUndefined | VNull => Throw notAnObject
  | _ => Throw notAFunction
  end.

Definition addMessage (sessionId : string) (message : MessageInput) : M (option obj) :=
  sessions ← getSessions;
  match findIndex sessionId sessions with
  | None => mret None
  | Some sessionIndex =>
      id ← generateId;
      timestamp ← now;
      let newMessage : obj :=
        <["timestamp" := VDate (Some timestamp)]>
          (<["id" := VStr id]> (messageObject message)) in
      pushed ← lift (match sessions !! sessionIndex with
                     | Some s => pushMessage newMessage s
                     | None => Throw notAnObject
                     end);
      let sessions := <[sessionIndex := pushed]> sessions in
      t ← now;
      let sessions := alter <["updatedAt" := VDate (Some t)]> sessionIndex sessions in
      saveSessions (sessionArray sessions);;
      mret (Some newMessage)
  end.

(** [{...old, ...settings}]: the provided fields win. *)
Definition mergeSettings (settings : PartialSettings) (s : obj) : obj :=
  <["settings" := VObj (partialSettingsObject settings ∪ ownProps (prop s "settings"))]> s.

Definition updateSessionSettings (sessionId : string) (settings : PartialSettings) : M bool :=
  sessions ← getSessions;
  match findIndex sessionId sessions with
  | None => mret false
  | Some sessionIndex =>
      let sessions := alter (mergeSettings settings) sessionIndex sessions in
      t ← now;
      let sessions := alter <["updatedAt" := VDate (Some t)]> sessionIndex sessions in
      saveSessions (sessionArray sessions);;
      mret true
  end.

Definition deleteSession (sessionId : string) : M bool :=
  sessions ← getSessions;
  let filteredSessions := filter (λ s, ¬ hasId sessionId s) sessions in
  if (length filteredSessions =? length sessions)%nat then mret false
  else saveSessions (sessionArray filteredSessions);; mret true.

Definition clearAllSessions : M unit := removeItem STORAGE_KEY.

(** The file handed to the browser for download. *)
Record Download : Type := mkDownload { download : string; data : string }.

Definition exportSessions : M Download :=
  sessions ← getSessions;
  let dataStr := default "undefined" (stringify 2 (sessionArray sessions)) in
  t ← now;
  mret (mkDownload ("rag-chat-sessions-" +:+ format t "yyyy-MM-dd-HH-mm" +:+ ".json")
                   dataStr).

Definition isValidSession (session : JsValue) : Completion bool :=
  if negb (truthy session) then Normal false else
  id ← get session "id";
  if negb (String.eqb (typeof id) "string") then Normal false else
  name ← get session "name";
  if negb (String.eqb (typeof name) "string") then Normal false else
  messages ← get session "messages";
  if negb (isArray messages) then Normal false else
  settings ← get session "settings";
  if negb (truthy settings) then Normal false else
  model ← get settings "model";
  if negb (String.eqb (typeof model) "string") then Normal false else
  temperature ← get settings "temperature";
  if negb (String.eqb (typeof temperature) "number") then Normal false else
  search_type ← get settings "search_type";
  Normal (existsb (strictEqStr search_type) ["hybrid"; "semantic"; "keyword"]).

(** [l.every(f)]: stops at the first element [f] rejects. *)
Fixpoint every (f : JsValue → Completion bool) (l : list JsValue) : Completion bool :=
  match l with
  | [] => Normal true
  | x :: l' => cbind (f x) (λ b : bool, if b then every f l' else Normal false)
  end.

(** [Array.isArray(sessions) && sessions.every(this.isValidSession)]. *)
Definition isValidImport (sessions : JsValue) : Completion bool :=
  match sessions with
  | VArr l => every isValidSession l
  | _ => Normal false
  end.

(** The [onload] handler of [importSessions], on the text of the file; the
    result is the value the promise resolves to. *)
Definition importSessions (content : string) : M bool :=
  tryCatch
    (sessions ← lift (parse content);
     valid ← lift (isValidImport sessions);
     if valid : bool then saveSessions sessions;; mret true
     else mret false)
    (λ _, mret false).
End WithRuntime.
End ChatStorageService.

(** ** A concrete run time

    One implementation of [Runtime] that satisfies [RuntimeLaws], used to
    run the services on concrete inputs.  Its serialiser writes the binary
    digits of a code number of the value; texts, dates and numbers are
    otherwise arbitrary. *)

Module Concrete.
Abbreviation leaf := (bool + Z * positive + string)%type.

Fixpoint enc (j : Json) : gen_tree leaf :=
  match j with
  | JNull => GenNode 0 []
  | JBool b => GenLeaf (inl (inl b))
  | JNum q => GenLeaf (inl (inr (Qnum q, Qden q)))
  | JStr s => GenLeaf (inr s)
  | JArr l => GenNode 1 (enc <$> l)
  | JObj o =>
      GenNode 2 ((λ kv, GenNode 3 [GenLeaf (inr kv.1); kv.2]) <$> map_to_list (enc <$> o))
  end.

Fixpoint dec (t : gen_tree leaf) : Json :=
  match t with
  | GenLeaf (inl (inl b)) => JBool b
  | GenLeaf (inl (inr (n, d))) => JNum (Qmake n d)
  | GenLeaf (inr s) => JStr s
  | GenNode 1 l => JArr (dec <$> l)
  | GenNode 2 l =>
      JObj (list_to_map
              ((λ t, match t with
                     | GenNode 3 [GenLeaf (inr k); v] => (k, dec v)
                     | _ => ("", JNull)
                     end) <$> l))
  | GenNode _ _ => JNull
  end.

Fixpoint bits (p : positive) : string :=
  match p with
  | xH => ""
  | xO p' => String "0"%char (bits p')
  | xI p' => String "1"%char (bits p')
  end.

Fixpoint unbits (s : string) : option positive :=
  match s with
  | EmptyString => Some xH
  | String c s' =>
      p ← unbits s';
      if Ascii.eqb c "0"%char then Some (xO p)
      else if Ascii.eqb c "1"%char then Some (xI p)
      else None
  end.

Definition runtime (clock : nat → Z) (random : nat → string) : Runtime := {|
  JSON_parse text :=
    match text with
    | String "J" text' => p ← unbits text'; t ← decode p; Some (dec t)
    | _ => None
    end;
  JSON_stringify _ j := String "J" (bits (encode (enc j)));
  toISOString t := bits (encode t);
  Date_parse text := p ← unbits text; decode p;
  Date_toString t := bits (encode t);
  Number_toString q := bits (encode (Qnum q, Qden q));
  format t _ := bits (encode t);
  Date_now := clock;
  Math_random := random;
|}.
End Concrete.

Definition emptyWorld : World := mkWorld ∅ 0 0 [].

(** ** services/api.ts

    The file comes in three revisions, all declaring [class ApiService]; they
    are embedded as [ApiServiceA] (the first in the source, which clears the
    license key on a rejected request), [ApiServiceB] (the second, which
    reads the key from [localStorage] under ['LICENSE_KEY']) and
    [ApiServiceC] (the third, which maps network failures to a CORS error). *)

Record Response : Type := mkResponse {
  status : nat;
  text : string;       (* the body, as [response.json()] parses it *)
}.

Definition ok (r : Response) : bool :=
  ((200 <=? status r) && (status r <=? 299))%nat.

Inductive Body : Type :=
| TextBody (s : string)
| FormData (file : string) (session_id : option string).

Record RequestInit : Type := mkRequestInit {
  method : option string;
  headers : option (gmap string string);
  body : option Body;
}.

Inductive FetchResult : Type :=
| Responded (r : Response)
| Rejected (e : Exn).

(** The network as the client sees it: [fetch url config] is the outcome of
    the request. *)
Class Network : Type := {
  API_BASE_URL : string;
  fetch : string → RequestInit → FetchResult;
  encodeURIComponent : string → string;
}.

(** [haystack.includes(needle)]. *)
Fixpoint includes (needle haystack : string) : bool :=
  String.prefix needle haystack ||
  match haystack with
  | String _ rest => includes needle rest
  | EmptyString => false
  end.

Definition isFormData (b : option Body) : bool :=
  match b with Some (FormData _ _) => true | _ => false end.

Section Api.
Context {R : Runtime} {N : Network}.

Definition doFetch (url : string) (config : RequestInit) : M Response :=
  match fetch url config with
  | Responded r => mret r
  | Rejected e => throw e
  end.

(** [response.json()]. *)
Definition json (r : Response) : M JsValue := lift (parse (text r)).

(** [response.json().catch(() => ({}))]. *)
Definition jsonOrEmpty (r : Response) : M JsValue :=
  tryCatch (json r) (λ _, mret (VObj ∅)).

(** [new Error(errorData.detail || fallback)]. *)
Definition errorOf (errorData : JsValue) (fallback : string) : M Exn :=
  detail ← lift (get errorData "detail");
  mret (Error (if truthy detail then ToString detail else fallback) false).

Definition httpError (r : Response) : string :=
  "HTTP error! status: " +:+ pretty (status r).

(** [formData.append('file', file); if (sessionId) formData.append(...)]. *)
Definition uploadForm (file : string) (sessionId : option string) : Body :=
  FormData file (match sessionId with
                 | Some "" | None => None
                 | Some s => Some s
                 end).
End Api.

Module ApiServiceA.
Section WithNetwork.
Context {R : Runtime} {N : Network}.

Definition request (endpoint : string) (options : RequestInit) : M JsValue :=
  let url := API_BASE_URL +:+ endpoint in
  key ← LicenseService.getKey;
  let merged : gmap string string :=
    default ∅ (headers options) ∪
    {[ "Content-Type" := "application/json";
       LicenseService.headerName := default "" key ]} in
  let config :=
    mkRequestInit (method options) (Some (default merged (headers options)))
                  (body options) in
  tryCatch
    (response ← doFetch url config;
     if negb (ok response) then
       (if (status response =? 401)%nat || (status response =? 403)%nat
        then LicenseService.clearKey else mret tt);;
       errorData ← jsonOrEmpty response;
       e ← errorOf errorData (httpError response);
       throw e
     else json response)
    (λ error, throw error).

Definition noOptions : RequestInit := mkRequestInit None None None.

Definition getHealth : M JsValue := request "/health" noOptions.

Definition processRAGQuery (request_ : JsValue) : M JsValue :=
  request "/api/rag/query"
    (mkRequestInit (Some "POST") None (TextBody <$> stringify 0 request_)).

Definition getAllDocuments : M JsValue := request "/api/documents/all" noOptions.

Definition updateSearchType (searchType : string) : M JsValue :=
  request ("/api/rag/search-type?search_type=" +:+ searchType)
    (mkRequestInit (Some "POST") None None).

Definition getRAGStatus : M JsValue := request "/api/rag/status" noOptions.

Definition deleteSessionDocuments (sessionId : string) : M JsValue :=
  request ("/api/documents/sessions/" +:+ sessionId)
    (mkRequestInit (Some "DELETE") None None).

Definition uploadDocument (file : string) (sessionId : option string) : M JsValue :=
  let formData := uploadForm file sessionId in
  let url := API_BASE_URL +:+ "/api/documents/upload" in
  tryCatch
    (key ← LicenseService.getKey;
     response ← doFetch url
       (mkRequestInit (Some "POST")
          (Some {[ LicenseService.headerName := default "" key ]})
          (Some formData));
     if negb (ok response) then
       (if (status response =? 401)%nat || (status response =? 403)%nat
        then LicenseService.clearKey else mret tt);;
       errorData ← jsonOrEmpty response;
       e ← errorOf errorData (httpError response);
       throw e
     else json response)
    (λ error, throw error).

(** The public methods of the class. *)
Inductive Call : Type :=
| GetHealth
| ProcessRAGQuery (request_ : JsValue)
| GetAllDocuments
| UpdateSearchType (searchType : string)
| GetRAGStatus
| DeleteSessionDocuments (sessionId : string)
| UploadDocument (file : string) (sessionId : option string).

Definition perform (c : Call) : M JsValue :=
  match c with
  | GetHealth => getHealth
  | ProcessRAGQuery r => processRAGQuery r
  | GetAllDocuments => getAllDocuments
  | UpdateSearchType t => updateSearchType t
  | GetRAGStatus => getRAGStatus
  | DeleteSessionDocuments i => deleteSessionDocuments i
  | UploadDocument f i => uploadDocument f i
  end.
End WithNetwork.
End ApiServiceA.

Module ApiServiceB.
Section WithNetwork.
Context {R : Runtime} {N : Network}.

(** [localStorage.getItem('LICENSE_KEY') || '']. *)
Definition licenseKey : M string :=
  key ← getItem "LICENSE_KEY";
  mret (default "" key).

Definition licenseHeader (key : string) : gmap string string :=
  if String.eqb key "" then ∅ else {[ "X-License-Key" := key ]}.

Definition request (endpoint : string) (options : RequestInit) : M JsValue :=
  let url := API_BASE_URL +:+ endpoint in
  key ← licenseKey;
  let merged : gmap string string :=
    default ∅ (headers options) ∪ licenseHeader key ∪
    {[ "Content-Type" := "application/json" ]} in
  let config :=
    mkRequestInit (method options) (Some (default merged (headers options)))
                  (body options) in
  tryCatch
    (response ← doFetch url config;
     if negb (ok response) then
       errorData ← jsonOrEmpty response;
       e ← errorOf errorData (httpError response);
       throw e
     else json response)
    (λ error, throw error).

Definition noOptions : RequestInit := mkRequestInit None None None.

Definition getHealth : M JsValue := request "/health" noOptions.

Definition processRAGQuery (request_ : JsValue) : M JsValue :=
  request "/api/rag/query"
    (mkRequestInit (Some "POST") None (TextBody <$> stringify 0 request_)).

Definition getAllDocuments : M JsValue := request "/api/documents/all" noOptions.

Definition updateSearchType (searchType : string) : M JsValue :=
  request ("/api/rag/search-type?search_type=" +:+ searchType)
    (mkRequestInit (Some "POST") None None).

Definition getRAGStatus : M JsValue := request "/api/rag/status" noOptions.

Definition deleteSessionDocuments (sessionId : string) : M JsValue :=
  request ("/api/documents/sessions/" +:+ sessionId)
    (mkRequestInit (Some "DELETE") None None).

Definition deleteDocumentsByFileName (fileName : string) : M JsValue :=
  let encodedFileName := encodeURIComponent fileName in
  request ("/api/documents/file/" +:+ encodedFileName)
    (mkRequestInit (Some "DELETE") None None).

Definition uploadDocument (file : string) (sessionId : option string) : M JsValue :=
  let formData := uploadForm file sessionId in
  let url := API_BASE_URL +:+ "/api/documents/upload" in
  key ← licenseKey;
  tryCatch
    (response ← doFetch url
       (mkRequestInit (Some "POST") (Some (licenseHeader key)) (Some formData));
     if negb (ok response) then
       errorData ← jsonOrEmpty response;
       e ← errorOf errorData (httpError response);
       throw e
     else json response)
    (λ error, throw error).

Inductive Call : Type :=
| GetHealth
| ProcessRAGQuery (request_ : JsValue)
| GetAllDocuments
| UpdateSearchType (searchType : string)
| GetRAGStatus
| DeleteSessionDocuments (sessionId : string)
| DeleteDocumentsByFileName (fileName : string)
| UploadDocument (file : string) (sessionId : option string).

Definition perform (c : Call) : M JsValue :=
  match c with
  | GetHealth => getHealth
  | ProcessRAGQuery r => processRAGQuery r
  | GetAllDocuments => getAllDocuments
  | UpdateSearchType t => updateSearchType t
  | GetRAGStatus => getRAGStatus
  | DeleteSessionDocuments i => deleteSessionDocuments i
  | DeleteDocumentsByFileName f => deleteDocumentsByFileName f
  | UploadDocument f i => uploadDocument f i
  end.
End WithNetwork.
End ApiServiceB.

Module ApiServiceC.
Section WithNetwork.
Context {R : Runtime} {N : Network}.

(** [licenseService.getKey() || '']. *)
Definition licenseKey : M string :=
  key ← LicenseService.getKey;
  mret (default "" key).

Definition licenseHeader (key : string) : gmap string string :=
  if String.eqb key "" then ∅ else {[ "X-License-Key" := key ]}.

Definition corsMessage : string :=
  "Network error: Unable to connect to the server. This may be a CORS issue. Please check your backend configuration.".

Definition request (endpoint : string) (options : RequestInit) : M JsValue :=
  let url := API_BASE_URL +:+ endpoint in
  key ← licenseKey;
  let headers0 : gmap string string := default ∅ (headers options) in
  let headers1 :=
    if String.eqb (default "" (headers0 !! "Content-Type")) ""
       && negb (isFormData (body options))
    then <["Content-Type" := "application/json"]> headers0 else headers0 in
  let headers2 :=
    if String.eqb key "" then headers1 else <["X-License-Key" := key]> headers1 in
  let config := mkRequestInit (method options) (Some headers2) (body options) in
  tryCatch
    (response ← doFetch url config;
     if negb (ok response) then
       if (status response =? 401)%nat then
         errorData ← jsonOrEmpty response;
         e ← errorOf errorData "Unauthorized: Please check your license key";
         throw e
       else
         errorData ← jsonOrEmpty response;
         e ← errorOf errorData (httpError response);
         throw e
     else json response)
    (λ error,
       match error with
       | TypeError message =>
           if includes "fetch" message then throw (Error corsMessage true)
           else throw error
       | _ => throw error
       end).

Definition noOptions : RequestInit := mkRequestInit None None None.

Definition getHealth : M JsValue := request "/health" noOptions.

Definition processRAGQuery (request_ : JsValue) : M JsValue :=
  request "/api/rag/query"
    (mkRequestInit (Some "POST") None (TextBody <$> stringify 0 request_)).

Definition getAllDocuments : M JsValue := request "/api/documents/all" noOptions.

Definition updateSearchType (searchType : string) : M JsValue :=
  request ("/api/rag/search-type?search_type=" +:+ searchType)
    (mkRequestInit (Some "POST") None None).

Definition getRAGStatus : M JsValue := request "/api/rag/status" noOptions.

Definition deleteSessionDocuments (sessionId : string) : M JsValue :=
  request ("/api/documents/sessions/" +:+ sessionId)
    (mkRequestInit (Some "DELETE") None None).

Definition deleteDocumentsByFileName (fileName : string) : M JsValue :=
  let encodedFileName := encodeURIComponent fileName in
  request ("/api/documents/file/" +:+ encodedFileName)
    (mkRequestInit (Some "DELETE") None None).

Definition uploadDocument (file : string) (sessionId : option string) : M JsValue :=
  let formData := uploadForm file sessionId in
  let url := API_BASE_URL +:+ "/api/documents/upload" in
  key ← licenseKey;
  tryCatch
    (response ← doFetch url
       (mkRequestInit (Some "POST") (Some (licenseHeader key)) (Some formData));
     if negb (ok response) then
       errorData ← jsonOrEmpty response;
       e ← errorOf errorData (httpError response);
       throw e
     else json response)
    (λ error, throw error).

Inductive Call : Type :=
| GetHealth
| ProcessRAGQuery (request_ : JsValue)
| GetAllDocuments
| UpdateSearchType (searchType : string)
| GetRAGStatus
| DeleteSessionDocuments (sessionId : string)
| DeleteDocumentsByFileName (fileName : string)
| UploadDocument (file : string) (sessionId : option string).

Definition perform (c : Call) : M JsValue :=
  match c with
  | GetHealth => getHealth
  | ProcessRAGQuery r => processRAGQuery r
  | GetAllDocuments => getAllDocuments
  | UpdateSearchType t => updateSearchType t
  | GetRAGStatus => getRAGStatus
  | DeleteSessionDocuments i => deleteSessionDocuments i
  | DeleteDocumentsByFileName f => deleteDocumentsByFileName f
  | UploadDocument f i => uploadDocument f i
  end.
End WithNetwork.
End ApiServiceC.

(** ** components/DocumentSelector.tsx *)

Module DocumentSelector.
(** [toggleDocument]: the selection it hands to [onSelectionChange]. *)
Definition toggleDocument (selectedDocuments : list string) (fileName : string) :
    list string :=
  if bool_decide (fileName ∈ selectedDocuments)
  then filter (λ name, name ≠ fileName) selectedDocuments
  else selectedDocuments ++ [fileName].

Definition clearSelection : list string := [].
End DocumentSelector.

(** ** components/DocumentManager.tsx: the upload session *)

Module DocumentManager.
Section WithRuntime.
Context {R : Runtime}.



End WithRuntime.
End DocumentManager.

(** ** What the properties are stated with *)

Section Observations.
Context {R : Runtime}.

(** The session collection as [getSessions] reads it in world [w]. *)
Definition stored (w : World) : list obj :=
  match (ChatStorageService.getSessions w).1 with
  | Normal l => l
  | Throw _ => []
  end.

(** What [getSessions] reads back for a session object once it has been
    written by [saveSessions]. *)
Definition reload (s : obj) : Completion obj :=
  ChatStorageService.reviveSession (inject (toJSON (VObj s))).

Definition timeOf (v : JsValue) : option Z :=
  match v with VDate t => t | _ => None end.

Definition createdAt (s : obj) : option Z := timeOf (prop s "createdAt").
Definition updatedAt (s : obj) : option Z := timeOf (prop s "updatedAt").

Definition messagesOf (s : obj) : list JsValue :=
  match prop s "messages" with VArr l => l | _ => [] end.

Definition timestampOf (m : JsValue) : option Z :=
  match m with VObj o => timeOf (prop o "timestamp") | _ => None end.

(** Every date of the session is a valid date. *)
Definition validDates (s : obj) : bool :=
  bool_decide (is_Some (createdAt s)) && bool_decide (is_Some (updatedAt s))
  && forallb (λ m, bool_decide (is_Some (timestampOf m))) (messagesOf s).

(** The store holds no Invalid Date. *)
Definition wellFormed (w : World) : Prop :=
  forallb validDates (stored w) = true.



(** A value that [JSON.stringify] and [JSON.parse] give back unchanged. *)
Definition plain (v : JsValue) : Prop := inject (toJSON v) = v.

Definition soundMessage (m : JsValue) : Prop :=
  ∃ o, m = VObj o
       ∧ (∃ t, o !! "timestamp" = Some (VDate (Some t)))
       ∧ ∀ k v, k ≠ "timestamp" → o !! k = Some v → plain v.

(** A session object whose dates are valid [Date]s and whose other fields
    are plain data. *)
Definition sound (s : obj) : Prop :=
  (∃ c, s !! "createdAt" = Some (VDate (Some c)))
  ∧ (∃ u, s !! "updatedAt" = Some (VDate (Some u)))
  ∧ (∃ ms, s !! "messages" = Some (VArr ms) ∧ Forall soundMessage ms)
  ∧ ∀ k v, k ≠ "createdAt" → k ≠ "updatedAt" → k ≠ "messages" →
           s !! k = Some v → plain v.

(** The property [JSON.stringify] writes for a property value [v], and
    what [JSON.parse] returns for it. *)
Definition written (v : JsValue) : option Json :=
  match v with
  | VUndefined => None
  | _ => Some (toJSON v)
  end.

Definition reloaded (v : JsValue) : option JsValue := inject <$> written v.

(** A list of sessions after [saveSessions] and [getSessions]. *)
Definition resave (l : list obj) : list obj :=
  match mapC reload l with
  | Normal l' => l'
  | Throw _ => []
  end.

Definition readable (s : obj) : Prop := ∃ s', reload s = Normal s'.

Definition plainObject (o : obj) : Prop := map_Forall (λ _, plain) o.

(** The world once [saveSessions] has written the list [l]. *)
Definition saved (l : list obj) (w : World) : World :=
  setStorage
    <[ChatStorageService.STORAGE_KEY :=
        JSON_stringify 0 (toJSON (ChatStorageService.sessionArray l))]> w.

(** The world after [n] clock readings and [m] random draws. *)
Definition advance (n m : nat) (w : World) : World :=
  mkWorld (localStorage w) (n + ticks w) (m + draws w) (dispatched w).

(** The identifier [generateId] returns when called in world [w]. *)
Definition freshId (w : World) : string :=
  toString36 (Date_now (ticks w)) +:+ substr 2 (Math_random (draws w)).

(** The session [createSession name settings] builds in world [w]. *)
Definition freshSession (w : World) (name : string) (settings : Settings) : obj :=
  {[ "id" := VStr (freshId w);
     "name" := VStr name;
     "messages" := VArr [];
     "createdAt" := VDate (Some (Date_now (S (ticks w))));
     "updatedAt" := VDate (Some (Date_now (S (S (ticks w)))));
     "settings" := VObj (settingsObject settings) ]}.

(** The message [addMessage] builds in world [w]. *)
Definition freshMessage (w : World) (message : MessageInput) : obj :=
  <["timestamp" := VDate (Some (Date_now (S (ticks w))))]>
    (<["id" := VStr (freshId w)]> (messageObject message)).
End Observations.

(** ** services/chatStorage.ts: the statistics

    Every session [getSessions] returns has a [Date] under [createdAt] and an
    array under [messages] (its [map] callback puts them there), so
    [s.createdAt.getTime()] and [session.messages.length] are read off with
    [createdAt] and [messagesOf]. *)

Record Stats : Type := mkStats {
  totalSessions : nat;
  totalMessages : nat;
  averageMessagesPerSession : Q;
  oldestSession : JsValue;     (* a [Date], or [null] *)
  newestSession : JsValue;
}.

(** [d.getTime()]: NaN, here [None], for an Invalid Date. *)
Definition getTime (d : option Z) : option Q := inject_Z <$> d.

(** [a - b] on numbers that may be NaN. *)
Definition minus (a b : option Q) : option Q :=
  x ← a; y ← b; Some (x - y)%Q.

Definition Q_of_nat (n : nat) : Q := inject_Z (Z.of_nat n).

Section Statistics.
Context {R : Runtime} {E : Numerics}.

Definition getSessionStats : M Stats :=
  sessions ← ChatStorageService.getSessions;
  if (length sessions =? 0)%nat then mret (mkStats 0 0 0 VNull VNull) else
  let totalMessages :=
    foldl (λ sum session, sum + length (messagesOf session))%nat 0%nat sessions in
  let dates :=
    Array_sort (λ a b, minus (getTime a) (getTime b)) (createdAt <$> sessions) in
  mret (mkStats (length sessions) totalMessages
          (Number_divide
             (Math_round
                (Number_multiply
                   (Number_divide (Q_of_nat totalMessages) (Q_of_nat (length sessions)))
                   100))
             100)
          (default VUndefined (VDate <$> head dates))
          (default VUndefined (VDate <$> list.last dates))).
End Statistics.


(** A record of the shape [isValidSession] asks for, with any temperature
    and anything at all in [messages]. *)
Definition shapedRecord (id name model : string) (temperature : Q)
    (search_type : SearchType) (messages : list Json) : Json :=
  JObj {[ "id" := JStr id;
          "name" := JStr name;
          "messages" := JArr messages;
          "settings" :=
            JObj {[ "model" := JStr model;
                    "temperature" := JNum temperature;
                    "search_type" := JStr (SearchType_name search_type) ]} ]}.

(** Sample data for the concrete runs. *)
Definition sampleRuntime : Runtime :=
  Concrete.runtime (λ n, 1700000000000 + Z.of_nat n) (λ _, "0.k3j9x2").


Definition fullSettings : gmap string Json :=
  {[ "model" := JStr "gpt-4o"; "temperature" := JNum (1 # 2);
     "search_type" := JStr "hybrid" ]}.


(** The operations that change a stored session. *)
Inductive Operation : Type :=
| Create (name : string) (settings : Settings)
| Rename (sessionId name : string)
| AddMessage (sessionId : string) (message : MessageInput)
| UpdateSettings (sessionId : string) (settings : PartialSettings).

Section Invariant.
Context {R : Runtime}.

(** The world after an operation. *)
Definition after (op : Operation) (w : World) : World :=
  match op with
  | Create name settings => (ChatStorageService.createSession name settings w).2
  | Rename sessionId name => (ChatStorageService.updateSessionName sessionId name w).2
  | AddMessage sessionId message => (ChatStorageService.addMessage sessionId message w).2
  | UpdateSettings sessionId settings =>
      (ChatStorageService.updateSessionSettings sessionId settings w).2
  end.

(** By how much an operation moves the sessions already stored. *)
Definition shift (op : Operation) : nat :=
  match op with Create _ _ => 1 | _ => 0 end.

(** The clock never runs backwards. *)
Definition monotone : Prop := ∀ i j : nat, (i ≤ j)%nat → (Date_now i ≤ Date_now j)%Z.

(** [updatedAt >= createdAt]. *)
Definition datesOrdered (s : obj) : Prop :=
  ∃ c u, createdAt s = Some c ∧ updatedAt s = Some u ∧ (c ≤ u)%Z.

(** The session was not created after the next reading of the clock. *)
Definition notFromFuture (w : World) (s : obj) : Prop :=
  ∀ c, createdAt s = Some c → (c ≤ Date_now (ticks w))%Z.

Definition consistent (w : World) : Prop :=
  wellFormed w ∧ Forall datesOrdered (stored w) ∧ Forall (notFromFuture w) (stored w).

(** [s'] is [s] with, at most, messages appended. *)
Definition grows (s s' : obj) : Prop :=
  prop s' "id" = prop s "id" ∧ createdAt s' = createdAt s
  ∧ ∃ more, messagesOf s' = messagesOf s ++ more.
End Invariant.

(** The shape of a session object, property by property: strings under
    [id] and [name], an array under [messages], and under [settings] an
    object with a string [model], a number [temperature] and one of the
    three search types. *)
Definition sessionShape (o : obj) : Prop :=
  (∃ id, o !! "id" = Some (VStr id))
  ∧ (∃ name, o !! "name" = Some (VStr name))
  ∧ (∃ messages, o !! "messages" = Some (VArr messages))
  ∧ ∃ (settings : obj) model temperature search_type,
      o !! "settings" = Some (VObj settings)
      ∧ settings !! "model" = Some (VStr model)
      ∧ settings !! "temperature" = Some (VNum temperature)
      ∧ settings !! "search_type" = Some (VStr search_type)
      ∧ search_type ∈ ["hybrid"; "semantic"; "keyword"].

(** Every method of the session store that takes no file handle, as a
    command, and the world it leaves. *)
Inductive Command : Type :=
| GetSessions
| GetSession (sessionId : string)
| Change (op : Operation)
| DeleteSession (sessionId : string)
| ClearAllSessions
| ExportSessions
| ImportSessions (content : string).

Definition run {R : Runtime} (c : Command) (w : World) : World :=
  match c with
  | GetSessions => (ChatStorageService.getSessions w).2
  | GetSession sessionId => (ChatStorageService.getSession sessionId w).2
  | Change op => after op w
  | DeleteSession sessionId => (ChatStorageService.deleteSession sessionId w).2
  | ClearAllSessions => (ChatStorageService.clearAllSessions w).2
  | ExportSessions => (ChatStorageService.exportSessions w).2
  | ImportSessions content => (ChatStorageService.importSessions content w).2
  end.

(** The session and the message [getSessions] builds from a record. *)
Definition revivedSession {R : Runtime} (j : Json) : obj :=
  match ChatStorageService.reviveSession (inject j) with
  | Normal s => s
  | Throw _ => ∅
  end.

Definition revivedMessage {R : Runtime} (j : Json) : JsValue :=
  match ChatStorageService.reviveMessage (inject j) with
  | Normal m => m
  | Throw _ => VUndefined
  end.

(** Two payloads for the same session: the second has [updatedAt] before
    [createdAt] and the two messages in the other order. *)
Definition sampleEntry (id : string) (time : Z) : Json :=
  JObj {[ "id" := JStr id; "role" := JStr "user"; "content" := JStr id;
          "timestamp" := JNum (inject_Z time) ]}.

Definition datedRecord (created updated : Z) (messages : list Json) : Json :=
  JObj {[ "id" := JStr "a"; "name" := JStr "chat"; "messages" := JArr messages;
          "createdAt" := JNum (inject_Z created);
          "updatedAt" := JNum (inject_Z updated);
          "settings" := JObj fullSettings ]}.

Definition firstRecord : Json :=
  datedRecord 1 2 [sampleEntry "m1" 1; sampleEntry "m2" 2].

Definition secondRecord : Json :=
  datedRecord 2 1 [sampleEntry "m2" 2; sampleEntry "m1" 1].

Definition sampleSettings : Settings := mkSettings "gpt-4o" (7 # 10) hybrid.

Definition sampleWorld : World :=
  (@ChatStorageService.createSession sampleRuntime "chat" sampleSettings emptyWorld).2.

Definition sampleMessage : MessageInput := mkMessageInput user "hello" None.

(** A response that rejects the license. *)
Definition rejected (r : Response) : Prop := status r = 401%nat ∨ status r = 403%nat.

(** The world after [licenseService.clearKey()]. *)
Definition cleared (w : World) : World :=
  mkWorld (delete LicenseService.STORAGE_KEY (localStorage w)) (ticks w) (draws w)
          (dispatched w ++ ["license:cleared"]).

(** A server that answers every request with 401, and a browser that holds a
    license key. *)
Definition rejectingNetwork : Network := {|
  API_BASE_URL := "http://localhost:8000";
  fetch _ _ := Responded (mkResponse 401 "Unauthorized");
  encodeURIComponent s := s;
|}.

Definition licensedWorld : World := mkWorld {[ "license_key" := "KEY-1" ]} 0 0 [].


(** A server that gives every request the same answer, and a network on
    which every request fails with the same error. *)
Definition answeringNetwork (r : Response) : Network := {|
  API_BASE_URL := "http://localhost:8000";
  fetch _ _ := Responded r;
  encodeURIComponent s := s;
|}.

Definition failingNetwork (e : Exn) : Network := {|
  API_BASE_URL := "http://localhost:8000";
  fetch _ _ := Rejected e;
  encodeURIComponent s := s;
|}.

(** The white space of ASCII: tab, line feed, vertical tab, form feed,
    carriage return and space. *)
Definition blank (c : Ascii.ascii) : Prop :=
  Ascii.nat_of_ascii c ∈ [9; 10; 11; 12; 13; 32]%nat.

(** Insertion sort under [SortCompare], and a [Numerics] that sorts with it
    and computes on rationals. *)
Fixpoint insertSorted {A} (comparefn : A → A → option Q) (x : A) (l : list A) : list A :=
  match l with
  | [] => [x]
  | y :: l' =>
      match SortCompare comparefn x y with
      | Gt => y :: insertSorted comparefn x l'
      | _ => x :: l
      end
  end.

Definition insertionSort {A} (comparefn : A → A → option Q) (l : list A) : list A :=
  foldr (insertSorted comparefn) [] l.

Definition sampleNumerics : Numerics := {|
  Number_divide := Qdiv;
  Number_multiply := Qmult;
  Math_round q := inject_Z (Qfloor (q + (1 # 2)));
  Array_sort := @insertionSort;
|}.

Fixpoint json_size (j : Json) : nat :=
  match j with
  | JArr l => S (foldr (λ x acc, json_size x + acc)%nat 0%nat l)
  | JObj o => S (map_fold (λ _ x acc, json_size x + acc)%nat 0%nat o)
  | _ => 1%nat
  end.

(** * Properties *)

(** ** JSON values *)

Lemma json_size_elem l x : x ∈ l → (json_size x < json_size (JArr l))%nat.
Proof. simpl. induction 1; simpl; lia. Qed.

Lemma json_size_lookup (o : gmap string Json) k x :
  o !! k = Some x → (json_size x < json_size (JObj o))%nat.
Proof.
  intros Hk. simpl.
  rewrite (map_fold_delete_L _ _ k x o); [lia| |done].
  intros. lia.
Qed.

(** Induction on JSON values, with the hypothesis available for every
    element of an array and every property of an object. *)
Lemma Json_rect_nested (P : Json → Prop) :
  P JNull → (∀ b, P (JBool b)) → (∀ q, P (JNum q)) → (∀ s, P (JStr s)) →
  (∀ l, Forall P l → P (JArr l)) →
  (∀ o, map_Forall (λ _, P) o → P (JObj o)) →
  ∀ j, P j.
Proof.
  intros Hnull Hbool Hnum Hstr Harr Hobj j.
  remember (json_size j) as n eqn:Hn. revert j Hn.
  induction (lt_wf n) as [n _ IH]. intros j ->.
  destruct j; auto.
  - apply Harr, list.Forall_forall. intros x Hx.
    apply (IH (json_size x)); [|done]. by apply json_size_elem.
  - apply Hobj. intros k x Hk.
    apply (IH (json_size x)); [|done]. by eapply json_size_lookup.
Qed.

Section JsonFacts.
Context {R : Runtime}.

Lemma inject_defined j : inject j ≠ VUndefined.
Proof. by destruct j. Qed.

Lemma toJSON_VObj (o : obj) : toJSON (VObj o) = JObj (omap written o).
Proof. done. Qed.

Lemma written_defined v : v ≠ VUndefined → written v = Some (toJSON v).
Proof. by destruct v. Qed.

(** Serialising a parsed value gives the parsed value back. *)
Lemma toJSON_inject j : toJSON (inject j) = j.
Proof.
  induction j as [| | | |l IH|o IH] using Json_rect_nested; try done.
  - simpl. f_equal. rewrite <- list_fmap_compose.
    rewrite <- (list_fmap_id l) at 2. apply Forall_fmap_ext_1.
    eapply list.Forall_impl; [exact IH|]. by intros x Hx.
  - cbn [inject]. rewrite toJSON_VObj. f_equal. apply map_eq. intros k.
    rewrite lookup_omap, lookup_fmap.
    destruct (o !! k) as [x|] eqn:Hk; simpl; [|done].
    rewrite written_defined by apply inject_defined.
    f_equal. exact (IH k x Hk).
Qed.

Lemma plain_inject j : plain (inject j).
Proof. unfold plain. by rewrite toJSON_inject. Qed.

Lemma plain_defined v : plain v → v ≠ VUndefined.
Proof. unfold plain. by intros H ->. Qed.

Lemma plain_VStr s : plain (VStr s).
Proof. done. Qed.

Lemma plain_VNum q : plain (VNum q).
Proof. done. Qed.

(** In objects of plain values nothing is lost or changed. *)
Lemma plain_VObj (o : obj) : map_Forall (λ _, plain) o → plain (VObj o).
Proof.
  intros Ho. unfold plain. rewrite toJSON_VObj. cbn [inject]. f_equal.
  apply map_eq. intros k. rewrite lookup_fmap, lookup_omap.
  destruct (o !! k) as [v|] eqn:Hk; simpl; [|done].
  specialize (Ho k v Hk). simpl in Ho.
  rewrite written_defined by by apply plain_defined.
  simpl. by f_equal.
Qed.

Lemma plain_VArr l : Forall plain l → plain (VArr l).
Proof.
  intros Hl. unfold plain. simpl. f_equal.
  rewrite <- list_fmap_compose. rewrite <- (list_fmap_id l) at 2.
  apply Forall_fmap_ext_1. eapply list.Forall_impl; [exact Hl|]. by intros x Hx.
Qed.
End JsonFacts.

(** ** The concrete run time obeys the laws *)

Lemma unbits_bits p : Concrete.unbits (Concrete.bits p) = Some p.
Proof. induction p as [p IH|p IH|]; simpl; try rewrite IH; done. Qed.

Lemma dec_enc j : Concrete.dec (Concrete.enc j) = j.
Proof.
  induction j as [| | q | |l IH|o IH] using Json_rect_nested; try done.
  - by destruct q.
  - simpl. f_equal. rewrite <- list_fmap_compose.
    rewrite <- (list_fmap_id l) at 2. apply Forall_fmap_ext_1.
    eapply list.Forall_impl; [exact IH|]. by intros x Hx.
  - simpl. f_equal. rewrite <- list_fmap_compose.
    erewrite (list_fmap_ext _ (prod_map id Concrete.dec))
      by (by intros i [k t] _).
    rewrite list_to_map_fmap, list_to_map_to_list, <- map_fmap_compose.
    rewrite <- (map_fmap_id o) at 2. apply map_fmap_ext.
    intros k x Hk. exact (IH k x Hk).
Qed.

#[global] Instance concrete_laws clock random :
  RuntimeLaws (Concrete.runtime clock random).
Proof.
  split.
  - intros n j. simpl. rewrite unbits_bits. simpl.
    rewrite decode_encode. simpl. by rewrite dec_enc.
  - done.
  - intros t. simpl. rewrite unbits_bits. simpl. apply decode_encode.
Qed.

(** ** Reading and writing the store *)

Section Store.
Context {R : Runtime}.
Import ChatStorageService.

(** [getSessions] has no effect, and never throws. *)
Lemma getSessions_run w : getSessions w = (Normal (stored w), w).
Proof.
  unfold stored, getSessions, tryCatch, getSessions_try.
  unfold mbind, M_bind, bind, getItem, lift, mret, M_ret, ret. simpl.
  destruct (localStorage w !! STORAGE_KEY) as [[|c text]|]; try done.
  destruct (parse (String c text)) as [v|e]; [|done].
  by destruct (arrayMap reviveSession v).
Qed.

Lemma stored_unfold w :
  stored w =
  match localStorage w !! STORAGE_KEY with
  | None | Some "" => []
  | Some text =>
      match parse text ≫= arrayMap reviveSession with
      | Normal l => l
      | Throw _ => []
      end
  end.
Proof.
  unfold stored, getSessions, tryCatch, getSessions_try.
  unfold mbind, M_bind, bind, getItem, lift, mret, M_ret, ret. simpl.
  destruct (localStorage w !! STORAGE_KEY) as [[|c text]|]; try done.
  unfold Completion_bind, cbind.
  destruct (parse (String c text)) as [v|e]; [|done].
  by destruct (arrayMap reviveSession v).
Qed.

Lemma saveSessions_run l w :
  saveSessions (sessionArray l) w = (Normal tt, saved l w).
Proof. done. Qed.

Lemma stored_ext w1 w2 : localStorage w1 = localStorage w2 → stored w1 = stored w2.
Proof. intros H. by rewrite !stored_unfold, H. Qed.

Lemma stored_advance n m w : stored (advance n m w) = stored w.
Proof. by apply stored_ext. Qed.

Lemma mapC_fmap {A B C} (f : B → Completion C) (g : A → B) l :
  mapC f (g <$> l) = mapC (f ∘ g) l.
Proof.
  induction l as [|x l IH]; [done|].
  rewrite fmap_cons. cbn [mapC]. by rewrite IH.
Qed.

Lemma mapC_Normal {A} (f : A → Completion A) l :
  Forall (λ x, f x = Normal x) l → mapC f l = Normal l.
Proof. induction 1 as [|x l Hx _ IH]; simpl; [done|]. by rewrite Hx, IH. Qed.


Context {L : RuntimeLaws R}.

Lemma JSON_stringify_nonempty n j : JSON_stringify n j ≠ "".
Proof.
  intros H. pose proof (JSON_parse_stringify n j) as Hp.
  rewrite H, JSON_parse_empty in Hp. done.
Qed.

Lemma parse_stringify n j : parse (JSON_stringify n j) = Normal (inject j).
Proof. unfold parse. by rewrite JSON_parse_stringify. Qed.

(** What [getSessions] reads once a list of sessions has been saved. *)
Lemma stored_saved l w : stored (saved l w) = resave l.
Proof.
  rewrite stored_unfold. unfold resave, saved, setStorage. cbn [localStorage].
  rewrite lookup_insert_eq.
  destruct (JSON_stringify 0 (toJSON (sessionArray l))) eqn:Hs.
  { by apply JSON_stringify_nonempty in Hs. }
  rewrite <- Hs, parse_stringify.
  unfold sessionArray. cbn [toJSON inject mbind Completion_bind cbind arrayMap].
  rewrite <- !list_fmap_compose. by rewrite mapC_fmap.
Qed.
End Store.

(** ** Saving a session and reading it back *)

Section Reload.
Context {R : Runtime}.
Import ChatStorageService.

Lemma reviveSession_VObj (o : obj) :
  reviveSession (VObj o) =
  ms ← arrayMap reviveMessage (prop o "messages");
  Normal (<["messages" := VArr ms]>
            (<["updatedAt" := VDate (Date_new (prop o "updatedAt"))]>
               (<["createdAt" := VDate (Date_new (prop o "createdAt"))]> o))).
Proof. done. Qed.

Lemma reviveMessage_VObj (o : obj) :
  reviveMessage (VObj o) =
  Normal (VObj (<["timestamp" := VDate (Date_new (prop o "timestamp"))]> o)).
Proof. done. Qed.

(** Only an object with an array under [messages] is read as a session. *)
Lemma reviveSession_Normal v s :
  reviveSession v = Normal s →
  ∃ (o : obj) l ms,
    v = VObj o ∧ o !! "messages" = Some (VArr l)
    ∧ mapC reviveMessage l = Normal ms
    ∧ s = <["messages" := VArr ms]>
            (<["updatedAt" := VDate (Date_new (prop o "updatedAt"))]>
               (<["createdAt" := VDate (Date_new (prop o "createdAt"))]> o)).
Proof.
  destruct v as [| |?|?|?|?|?|o]; try done.
  rewrite reviveSession_VObj. unfold prop.
  destruct (o !! "messages") as [[| |?|?|?|?|l|?]|] eqn:Hm; simpl; try done.
  destruct (mapC reviveMessage l) as [ms|] eqn:Hl; [|done].
  simpl. intros [= <-]. by exists o, l, ms.
Qed.

Lemma reviveMessage_Normal v m :
  reviveMessage v = Normal m →
  m = VObj (<["timestamp" := VDate (Date_new (match get v "timestamp" with
                                               | Normal x => x
                                               | Throw _ => VUndefined
                                               end))]> (ownProps v)).
Proof.
  unfold reviveMessage. destruct (get v "timestamp"); [|done].
  simpl. by intros [= <-].
Qed.

Lemma inject_toJSON_VObj (o : obj) :
  inject (toJSON (VObj o)) = VObj (omap reloaded o).
Proof.
  rewrite toJSON_VObj. cbn [inject]. f_equal. apply map_eq. intros k.
  rewrite lookup_fmap, !lookup_omap. by destruct (o !! k).
Qed.

Lemma reloaded_plain v : plain v → reloaded v = Some v.
Proof.
  intros Hv. unfold reloaded.
  rewrite written_defined by by apply plain_defined.
  simpl. by f_equal.
Qed.

Lemma plain_ownProps_inject j k v :
  ownProps (inject j) !! k = Some v → plain v.
Proof.
  destruct j as [| | |s|l|o]; simpl; try (by rewrite lookup_empty).
  - intros H%elem_of_list_to_map_2%elem_of_lookup_imap.
    destruct H as (i & x & [= -> ->] & Hx).
    apply list_elem_of_lookup_2, list_elem_of_fmap in Hx.
    by destruct Hx as (c & -> & _).
  - intros H%elem_of_list_to_map_2%elem_of_lookup_imap.
    destruct H as (i & x & [= -> ->] & Hx).
    apply list_elem_of_lookup_2, list_elem_of_fmap in Hx.
    destruct Hx as (y & -> & _). apply plain_inject.
  - rewrite lookup_fmap. destruct (o !! k); [|done].
    simpl. intros [= <-]. apply plain_inject.
Qed.

Context {L : RuntimeLaws R}.

Lemma reloaded_date t : reloaded (VDate (Some t)) = Some (VStr (toISOString t)).
Proof. done. Qed.

Lemma reload_message m :
  soundMessage m → reviveMessage (inject (toJSON m)) = Normal m.
Proof.
  intros (o & -> & [t Ht] & Hplain).
  rewrite inject_toJSON_VObj, reviveMessage_VObj. do 2 f_equal.
  unfold prop. rewrite lookup_omap, Ht. simpl.
  rewrite Date_parse_toISOString.
  apply map_eq. intros k. destruct (decide (k = "timestamp")) as [->|Hk].
  - by rewrite lookup_insert_eq.
  - rewrite lookup_insert_ne, lookup_omap by done.
    destruct (o !! k) as [v|] eqn:Hv; [|done].
    simpl. apply reloaded_plain. by eapply Hplain.
Qed.

(** A sound session is read back exactly as it was saved. *)
Lemma reload_sound s : sound s → reload s = Normal s.
Proof.
  intros ([c Hc] & [u Hu] & (ms & Hms & Hsound) & Hplain).
  unfold reload. rewrite inject_toJSON_VObj, reviveSession_VObj.
  unfold prop. rewrite !lookup_omap, Hc, Hu, Hms. simpl.
  rewrite !Date_parse_toISOString.
  rewrite <- list_fmap_compose, mapC_fmap.
  rewrite (mapC_Normal _ ms).
  2:{ eapply list.Forall_impl; [exact Hsound|]. intros m Hm. by apply reload_message. }
  simpl. f_equal. apply map_eq. intros k.
  destruct (decide (k = "messages")) as [->|Hk1]; [by rewrite lookup_insert_eq|].
  rewrite lookup_insert_ne by done.
  destruct (decide (k = "updatedAt")) as [->|Hk2]; [by rewrite lookup_insert_eq|].
  rewrite lookup_insert_ne by done.
  destruct (decide (k = "createdAt")) as [->|Hk3]; [by rewrite lookup_insert_eq|].
  rewrite lookup_insert_ne, lookup_omap by done.
  destruct (s !! k) as [v|] eqn:Hv; [|done].
  simpl. apply reloaded_plain. by eapply Hplain.
Qed.

Lemma reload_all l : Forall sound l → mapC reload l = Normal l.
Proof.
  intros Hl. apply mapC_Normal.
  eapply list.Forall_impl; [exact Hl|]. apply reload_sound.
Qed.

(** Saving sound sessions and reading them gives them back. *)
Lemma resave_sound l : Forall sound l → resave l = l.
Proof. intros Hl. unfold resave. by rewrite reload_all. Qed.

Lemma stored_saved_sound l w : Forall sound l → stored (saved l w) = l.
Proof. intros Hl. by rewrite stored_saved, resave_sound. Qed.
End Reload.

Section Soundness.
Context {R : Runtime}.
Import ChatStorageService.

Lemma mapC_Forall2 {A B} (f : A → Completion B) l l' :
  mapC f l = Normal l' → Forall2 (λ x y, f x = Normal y) l l'.
Proof.
  revert l'. induction l as [|x l IH]; intros l'; simpl.
  - intros [= <-]. constructor.
  - destruct (f x) as [y|] eqn:Hx; [|done]. simpl.
    destruct (mapC f l) as [ys|] eqn:Hl; [|done]. simpl.
    intros [= <-]. constructor; [done|]. by apply IH.
Qed.

Lemma mapC_total {A B} (f : A → Completion B) l :
  Forall (λ x, ∃ y, f x = Normal y) l → ∃ l', mapC f l = Normal l'.
Proof.
  induction 1 as [|x l [y Hx] _ [l' IH]]; simpl; [by eexists|].
  rewrite Hx, IH. by eexists.
Qed.

(** Every session [getSessions] returns was built by its [map] callback
    from a parsed record. *)
Lemma stored_origin w s :
  s ∈ stored w → ∃ j, reviveSession (inject j) = Normal s.
Proof.
  rewrite stored_unfold.
  destruct (localStorage w !! STORAGE_KEY) as [[|c text]|]; try by intros ?%elem_of_nil.
  unfold parse. destruct (JSON_parse (String c text)) as [j|]; [|by intros ?%elem_of_nil].
  simpl. destruct j as [| | | |jl|]; try by intros ?%elem_of_nil.
  cbn [inject arrayMap].
  destruct (mapC reviveSession (inject <$> jl)) as [l|] eqn:Hl; [|by intros ?%elem_of_nil].
  intros Hs. apply mapC_Forall2 in Hl.
  destruct (proj1 (list_elem_of_lookup _ _) Hs) as [i Hi].
  destruct (Forall2_lookup_r _ _ _ _ _ Hl Hi) as (x & Hx & Hrev).
  rewrite list_lookup_fmap in Hx.
  destruct (jl !! i) as [j|]; [|done]. simpl in Hx. injection Hx as <-. by exists j.
Qed.

Lemma revived_message_sound j m :
  reviveMessage (inject j) = Normal m → is_Some (timestampOf m) → soundMessage m.
Proof.
  intros Hm%reviveMessage_Normal Ht. subst m.
  eexists. split; [done|]. split.
  - simpl in Ht. unfold prop in Ht. rewrite lookup_insert_eq in Ht. simpl in Ht.
    destruct Ht as [t Ht]. exists t. by rewrite lookup_insert_eq, Ht.
  - intros k v Hk. rewrite lookup_insert_ne by done. apply plain_ownProps_inject.
Qed.

(** A session read from the store is sound as soon as its dates are
    valid. *)
Lemma revived_sound j s :
  reviveSession (inject j) = Normal s → validDates s = true → sound s.
Proof.
  intros (o & l & ms & Ho & Hl & Hms & ->)%reviveSession_Normal Hvalid.
  unfold validDates, createdAt, updatedAt, messagesOf, prop in Hvalid.
  rewrite lookup_insert_eq in Hvalid.
  rewrite (lookup_insert_ne _ "messages" "updatedAt"), lookup_insert_eq in Hvalid by done.
  rewrite (lookup_insert_ne _ "messages" "createdAt"),
    (lookup_insert_ne _ "updatedAt" "createdAt"), lookup_insert_eq in Hvalid by done.
  simpl in Hvalid.
  apply andb_prop in Hvalid as [[Hc%bool_decide_eq_true_1 Hu%bool_decide_eq_true_1]%andb_prop Hts].
  destruct Hc as [c Hc], Hu as [u Hu]. unfold prop.
  split; [|split; [|split]].
  - exists c. rewrite !lookup_insert_ne, lookup_insert_eq by done. by rewrite Hc.
  - exists u. rewrite lookup_insert_ne, lookup_insert_eq by done. by rewrite Hu.
  - exists ms. split; [by rewrite lookup_insert_eq|].
    destruct j as [| | | | |jo]; try done. injection Ho as <-.
    rewrite lookup_fmap in Hl.
    destruct (jo !! "messages") as [[| | | |jl|]|]; try done.
    injection Hl as <-.
    apply mapC_Forall2 in Hms.
    rewrite forallb_forall in Hts.
    apply list.Forall_forall. intros m Hm.
    destruct (proj1 (list_elem_of_lookup _ _) Hm) as [i Hi].
    destruct (Forall2_lookup_r _ _ _ _ _ Hms Hi) as (x & Hx & Hrev).
    rewrite list_lookup_fmap in Hx.
    destruct (jl !! i) as [mj|]; [|done]. simpl in Hx. injection Hx as <-.
    eapply revived_message_sound; [done|].
    assert (Hm' := Hts m (proj1 (list_elem_of_In _ _) Hm)).
    by apply bool_decide_eq_true_1 in Hm'.
  - intros k v Hk1 Hk2 Hk3. rewrite !lookup_insert_ne by done.
    destruct j as [| | | | |jo]; try done. injection Ho as <-.
    intros Hv. by eapply (plain_ownProps_inject (JObj jo)).
Qed.

Lemma wellFormed_sound w : wellFormed w → Forall sound (stored w).
Proof.
  unfold wellFormed. rewrite forallb_forall. intros Hw.
  apply list.Forall_forall. intros s Hs.
  destruct (stored_origin w s Hs) as [j Hj].
  eapply revived_sound; [done|]. by apply Hw, list_elem_of_In.
Qed.

(** Whatever [getSessions] returned can be saved and read again. *)
Lemma reload_revived v s : reviveSession v = Normal s → readable s.
Proof.
  unfold readable.
  intros (o & l & ms & -> & Hl & Hms & ->)%reviveSession_Normal.
  unfold reload. rewrite inject_toJSON_VObj, reviveSession_VObj.
  unfold prop. rewrite !lookup_omap, lookup_insert_eq.
  cbn [mbind option_bind reloaded written fmap option_fmap option_map toJSON inject
       default].
  unfold id. cbn [arrayMap].
  rewrite <- list_fmap_compose, mapC_fmap.
  destruct (mapC_total (reviveMessage ∘ (inject ∘ toJSON)) ms) as [ms' Hms'].
  { apply mapC_Forall2 in Hms. apply list.Forall_forall. intros m Hm.
    destruct (proj1 (list_elem_of_lookup _ _) Hm) as [i Hi].
    destruct (Forall2_lookup_r _ _ _ _ _ Hms Hi) as (x & Hx & Hrev).
    apply reviveMessage_Normal in Hrev. subst m. unfold compose.
    rewrite inject_toJSON_VObj, reviveMessage_VObj. by eexists. }
  rewrite Hms'. by eexists.
Qed.

Lemma readable_stored w : Forall readable (stored w).
Proof.
  apply list.Forall_forall. intros s Hs.
  destruct (stored_origin w s Hs) as [j Hj]. by eapply reload_revived.
Qed.

Context {L : RuntimeLaws R}.

Lemma readable_sound s : sound s → readable s.
Proof. intros Hs. exists s. by apply reload_sound. Qed.




Lemma resave_cons s l :
  sound s → Forall readable l → resave (s :: l) = s :: resave l.
Proof.
  intros Hs [l' Hl]%mapC_total. unfold resave. cbn [mapC].
  rewrite (reload_sound s Hs), Hl. done.
Qed.


Lemma mapC_take {A B} (f : A → Completion B) n l l' :
  mapC f l = Normal l' → mapC f (take n l) = Normal (take n l').
Proof.
  revert n l'. induction l as [|x l IH]; intros n l'; simpl.
  - intros [= <-]. by destruct n.
  - destruct (f x) as [y|] eqn:Hx; [|done]. simpl.
    destruct (mapC f l) as [ys|] eqn:Hl; [|done]. simpl.
    intros [= <-]. destruct n as [|n]; [done|].
    simpl. by rewrite Hx, (IH n ys).
Qed.

Lemma resave_take n l :
  Forall readable l → resave (take n l) = take n (resave l).
Proof.
  intros [l' Hl]%mapC_total. unfold resave.
  by rewrite (mapC_take _ n l l' Hl), Hl.
Qed.

End Soundness.

(** ** The operations of the session store, step by step *)

Section Operations.
Context {R : Runtime}.
Import ChatStorageService.

Lemma bind_Normal {A B} (m : M A) (k : A → M B) w a w' :
  m w = (Normal a, w') → (m ≫= k) w = k a w'.
Proof. unfold mbind, M_bind, bind. by intros ->. Qed.

Lemma lift_Normal {A B} (a : A) (k : A → M B) w :
  (lift (Normal a) ≫= k) w = k a w.
Proof. done. Qed.

Lemma now_run w : now w = (Normal (Date_now (ticks w)), advance 1 0 w).
Proof. done. Qed.

Lemma generateId_run w : generateId w = (Normal (freshId w), advance 1 1 w).
Proof. done. Qed.

Lemma cap_take (l : list obj) :
  (if (MAX_SESSIONS <? length l)%nat then take MAX_SESSIONS l else l)
  = take MAX_SESSIONS l.
Proof.
  destruct (MAX_SESSIONS <? length l)%nat eqn:H; [done|].
  apply Nat.ltb_ge in H. by rewrite take_ge.
Qed.

Lemma createSession_run name settings w :
  createSession name settings w =
  (Normal (freshSession w name settings),
   saved (take MAX_SESSIONS (freshSession w name settings :: stored w))
         (advance 3 1 w)).
Proof.
  unfold createSession.
  erewrite bind_Normal by apply generateId_run.
  erewrite bind_Normal by apply now_run.
  erewrite bind_Normal by apply now_run.
  erewrite bind_Normal by apply getSessions_run.
  rewrite cap_take.
  erewrite bind_Normal by apply saveSessions_run.
  rewrite !stored_advance. done.
Qed.

Lemma updateSessionName_missing sessionId name w :
  findIndex sessionId (stored w) = None →
  updateSessionName sessionId name w = (Normal false, w).
Proof.
  intros Hi. unfold updateSessionName.
  erewrite bind_Normal by apply getSessions_run. by rewrite Hi.
Qed.

Lemma updateSessionName_run sessionId name w i :
  findIndex sessionId (stored w) = Some i →
  updateSessionName sessionId name w =
  (Normal true,
   saved (alter (<["updatedAt" := VDate (Some (Date_now (ticks w)))]>
                 ∘ <["name" := VStr name]>) i (stored w))
         (advance 1 0 w)).
Proof.
  intros Hi. unfold updateSessionName.
  erewrite bind_Normal by apply getSessions_run. rewrite Hi.
  erewrite bind_Normal by apply now_run.
  erewrite bind_Normal by apply saveSessions_run.
  by rewrite list_alter_alter_eq.
Qed.

Lemma updateSessionSettings_missing sessionId settings w :
  findIndex sessionId (stored w) = None →
  updateSessionSettings sessionId settings w = (Normal false, w).
Proof.
  intros Hi. unfold updateSessionSettings.
  erewrite bind_Normal by apply getSessions_run. by rewrite Hi.
Qed.

Lemma updateSessionSettings_run sessionId settings w i :
  findIndex sessionId (stored w) = Some i →
  updateSessionSettings sessionId settings w =
  (Normal true,
   saved (alter (<["updatedAt" := VDate (Some (Date_now (ticks w)))]>
                 ∘ mergeSettings settings) i (stored w))
         (advance 1 0 w)).
Proof.
  intros Hi. unfold updateSessionSettings.
  erewrite bind_Normal by apply getSessions_run. rewrite Hi.
  erewrite bind_Normal by apply now_run.
  erewrite bind_Normal by apply saveSessions_run.
  by rewrite list_alter_alter_eq.
Qed.

Lemma addMessage_missing sessionId message w :
  findIndex sessionId (stored w) = None →
  addMessage sessionId message w = (Normal None, w).
Proof.
  intros Hi. unfold addMessage.
  erewrite bind_Normal by apply getSessions_run. by rewrite Hi.
Qed.

(** Every stored session has an array under [messages]. *)
Lemma stored_messages w s :
  s ∈ stored w → ∃ ms, s !! "messages" = Some (VArr ms).
Proof.
  intros [j Hj]%stored_origin.
  apply reviveSession_Normal in Hj as (o & l & ms & _ & _ & _ & ->).
  exists ms. by rewrite lookup_insert_eq.
Qed.

Lemma addMessage_run sessionId message w i s ms :
  findIndex sessionId (stored w) = Some i →
  stored w !! i = Some s →
  s !! "messages" = Some (VArr ms) →
  addMessage sessionId message w =
  (Normal (Some (freshMessage w message)),
   saved (<[i := <["updatedAt" := VDate (Some (Date_now (S (S (ticks w)))))]>
                   (<["messages" := VArr (ms ++ [VObj (freshMessage w message)])]> s)]>
            (stored w))
         (advance 3 1 w)).
Proof.
  intros Hi Hs Hms. unfold addMessage.
  erewrite bind_Normal by apply getSessions_run. rewrite Hi.
  erewrite bind_Normal by apply generateId_run.
  erewrite bind_Normal by apply now_run.
  rewrite Hs. unfold pushMessage, prop. rewrite Hms. cbn [default].
  unfold id. rewrite lift_Normal.
  erewrite bind_Normal by apply now_run.
  erewrite bind_Normal by apply saveSessions_run.
  unfold freshMessage. cbn [advance ticks Nat.add].
  do 3 f_equal.
  apply list_eq. intros j. destruct (decide (j = i)) as [->|Hj].
  - rewrite list_lookup_alter_eq, !list_lookup_insert_eq
      by (by eapply lookup_lt_Some). done.
  - by rewrite list_lookup_alter_ne, !list_lookup_insert_ne.
Qed.

Lemma importSessions_unparseable content w :
  JSON_parse content = None → importSessions content w = (Normal false, w).
Proof.
  intros H. unfold importSessions, tryCatch, parse. rewrite H. done.
Qed.

Lemma importSessions_parsed content j w :
  JSON_parse content = Some j →
  importSessions content w =
  match isValidImport (inject j) with
  | Normal true =>
      (Normal true,
       setStorage <[STORAGE_KEY := JSON_stringify 0 (toJSON (inject j))]> w)
  | _ => (Normal false, w)
  end.
Proof.
  intros H. unfold importSessions, tryCatch, parse. rewrite H.
  rewrite lift_Normal. unfold mbind at 1, M_bind, bind, lift.
  destruct (isValidImport (inject j)) as [[|]|]; try done.
  unfold mbind, M_bind, bind, saveSessions, tryCatch, setItem, stringify.
  by destruct j.
Qed.
End Operations.

(** ** Sessions and messages built by the service are sound *)

(** Case analysis on a lookup in a map written as a chain of inserts. *)
Ltac lookup_chain H :=
  repeat first
    [ rewrite lookup_insert in H;
      destruct (decide _) as [<-|?]; [injection H as <-|]
    | rewrite lookup_singleton in H;
      destruct (decide _) as [<-|?]; [injection H as <-|done]
    | by rewrite lookup_empty in H ].

Section Built.
Context {R : Runtime}.
Import ChatStorageService.

Lemma plainObject_empty : plainObject ∅.
Proof. apply map_Forall_empty. Qed.

Lemma plainObject_insert k v o :
  plain v → plainObject o → plainObject (<[k := v]> o).
Proof. intros Hv Ho. by apply map_Forall_insert_2. Qed.

Lemma plainObject_optProp k v o :
  (∀ x, v = Some x → plain x) → plainObject o → plainObject (optProp k v o).
Proof.
  intros Hv Ho. destruct v as [x|]; [|done].
  apply plainObject_insert; auto.
Qed.

Lemma plainObject_union o1 o2 :
  plainObject o1 → plainObject o2 → plainObject (o1 ∪ o2).
Proof.
  intros H1 H2 k v [Hv|[_ Hv]]%lookup_union_Some_raw; [by eapply H1|by eapply H2].
Qed.

Lemma plainObject_settings settings : plainObject (settingsObject settings).
Proof. intros k v Hv. unfold settingsObject in Hv. lookup_chain Hv; done. Qed.

Lemma plainObject_partialSettings settings :
  plainObject (partialSettingsObject settings).
Proof.
  unfold partialSettingsObject.
  repeat apply plainObject_optProp; try apply plainObject_empty;
    intros x Hx; by apply fmap_Some in Hx as (? & _ & ->).
Qed.

Lemma plainObject_metadata m : plainObject (metadataObject m).
Proof.
  unfold metadataObject.
  repeat apply plainObject_optProp; try apply plainObject_empty;
    intros x Hx; by apply fmap_Some in Hx as (? & _ & ->).
Qed.

Lemma plainObject_message m : plainObject (messageObject m).
Proof.
  unfold messageObject. apply plainObject_optProp.
  - intros x Hx. apply fmap_Some in Hx as (md & _ & ->).
    apply plain_VObj, plainObject_metadata.
  - intros k v Hv. lookup_chain Hv; done.
Qed.

(** The properties copied out of a plain value are plain. *)
Lemma plainObject_ownProps v : plain v → plainObject (ownProps v).
Proof.
  unfold plain. destruct v as [| |?|?|s|?|l|o]; try (intros _; apply plainObject_empty).
  - intros _ k v H%elem_of_list_to_map_2%elem_of_lookup_imap.
    destruct H as (i & x & [= -> ->] & Hx).
    apply list_elem_of_lookup_2, list_elem_of_fmap in Hx.
    by destruct Hx as (c & -> & _).
  - cbn [toJSON inject]. intros [= Hl] k v H%elem_of_list_to_map_2%elem_of_lookup_imap.
    destruct H as (i & x & [= -> ->] & Hx).
    apply (f_equal (λ l, l !! i)) in Hl.
    rewrite <- list_fmap_compose, list_lookup_fmap, Hx in Hl.
    by injection Hl.
  - rewrite inject_toJSON_VObj. cbn [ownProps]. intros [= Ho] k v Hv.
    apply (f_equal (λ o, o !! k)) in Ho. rewrite lookup_omap, Hv in Ho.
    unfold reloaded in Ho. unfold plain.
    destruct v; simpl in *; congruence.
Qed.

Lemma soundMessage_fresh w message : soundMessage (VObj (freshMessage w message)).
Proof.
  eexists. split; [done|]. unfold freshMessage. split.
  - eexists. by rewrite lookup_insert_eq.
  - intros k v Hk. rewrite lookup_insert_ne by done.
    intros Hv. apply lookup_insert_Some in Hv as [[_ <-]|[_ Hv]]; [done|].
    by eapply plainObject_message.
Qed.

Lemma sound_freshSession w name settings : sound (freshSession w name settings).
Proof.
  unfold freshSession. split; [|split; [|split]].
  - eexists. rewrite !lookup_insert_ne by done. by rewrite lookup_insert_eq.
  - eexists. rewrite !lookup_insert_ne by done. by rewrite lookup_insert_eq.
  - exists []. split; [|constructor].
    rewrite !lookup_insert_ne by done. by rewrite lookup_insert_eq.
  - intros k v ? ? ? Hv. lookup_chain Hv; try done;
      apply plain_VObj, plainObject_settings.
Qed.

(** Assigning plain data to an ordinary field keeps a session sound. *)
Lemma sound_insert_plain k v s :
  k ≠ "createdAt" → k ≠ "updatedAt" → k ≠ "messages" →
  plain v → sound s → sound (<[k := v]> s).
Proof.
  intros ? ? ? Hv (Hc & Hu & Hm & Hp).
  split; [|split; [|split]]; try by rewrite lookup_insert_ne.
  intros k' v' ? ? ?. rewrite lookup_insert.
  destruct (decide (k = k')) as [<-|?]; [by intros [= <-]|]. by apply Hp.
Qed.

Lemma sound_touch t s : sound s → sound (<["updatedAt" := VDate (Some t)]> s).
Proof.
  intros (Hc & Hu & Hm & Hp).
  split; [|split; [|split]]; try by rewrite lookup_insert_ne.
  - eexists. by rewrite lookup_insert_eq.
  - intros k v ? ? ?. rewrite lookup_insert_ne by done. by apply Hp.
Qed.

Lemma sound_push m ms s :
  soundMessage m → s !! "messages" = Some (VArr ms) → sound s →
  sound (<["messages" := VArr (ms ++ [m])]> s).
Proof.
  intros Hm Hms (Hc & Hu & (ms' & Hms' & Hsound) & Hp).
  rewrite Hms in Hms'. injection Hms' as <-.
  split; [|split; [|split]]; try by rewrite lookup_insert_ne.
  - exists (ms ++ [m]). split; [by rewrite lookup_insert_eq|].
    apply Forall_app. split; [done|]. by constructor.
  - intros k v ? ? ?. rewrite lookup_insert_ne by done. by apply Hp.
Qed.

Lemma sound_mergeSettings settings s : sound s → sound (mergeSettings settings s).
Proof.
  intros Hs. unfold mergeSettings. apply sound_insert_plain; try done.
  apply plain_VObj, plainObject_union; [apply plainObject_partialSettings|].
  unfold prop. destruct (s !! "settings") as [v|] eqn:Hv; [|apply plainObject_empty].
  apply plainObject_ownProps. destruct Hs as (_ & _ & _ & Hp).
  by apply (Hp "settings").
Qed.
End Built.

(** ** Reading the store never fails *)

Section Reading.
Context {R : Runtime}.
Import ChatStorageService.

(** C8: whatever text is stored under the session key, [getSessions]
    returns a list and leaves the world as it was; when its [try] block
    throws (the text is not JSON, is not an array, or holds a record that
    cannot be read as a session) the list is empty. *)
Theorem getSessions_fails_closed (w : World) :
  ∃ l, getSessions w = (Normal l, w)
       ∧ ∀ e w', getSessions_try w = (Throw e, w') → l = [].
Proof.
  exists (stored w). split; [apply getSessions_run|].
  intros e w' Htry. unfold stored, getSessions, tryCatch. by rewrite Htry.
Qed.
End Reading.

(** ** Import *)

Section Importing.
Context {R : Runtime}.
Import ChatStorageService.

Lemma get_total v k : truthy v = true → ∃ x, get v k = Normal x.
Proof. destruct v; try done; by eexists. Qed.

(** The validation itself never throws. *)
Lemma isValidSession_total v : ∃ b, isValidSession v = Normal b.
Proof.
  unfold isValidSession.
  destruct (truthy v) eqn:Hv; [|by eexists]. cbn [negb].
  destruct (get_total v "id" Hv) as [x ->]. cbn [mbind Completion_bind cbind].
  destruct (negb _); [by eexists|].
  destruct (get_total v "name" Hv) as [y ->]. cbn [mbind Completion_bind cbind].
  destruct (negb _); [by eexists|].
  destruct (get_total v "messages" Hv) as [z ->]. cbn [mbind Completion_bind cbind].
  destruct (negb _); [by eexists|].
  destruct (get_total v "settings" Hv) as [st ->]. cbn [mbind Completion_bind cbind].
  destruct (truthy st) eqn:Hst; [|by eexists]. cbn [negb].
  destruct (get_total st "model" Hst) as [m ->]. cbn [mbind Completion_bind cbind].
  destruct (negb _); [by eexists|].
  destruct (get_total st "temperature" Hst) as [t ->]. cbn [mbind Completion_bind cbind].
  destruct (negb _); [by eexists|].
  destruct (get_total st "search_type" Hst) as [ty ->]. cbn [mbind Completion_bind cbind].
  by eexists.
Qed.

Lemma every_true f l :
  every f l = Normal true ↔ Forall (λ x, f x = Normal true) l.
Proof.
  induction l as [|x l IH]; simpl; [by split; [constructor|]|].
  rewrite Forall_cons_iff, <- IH.
  destruct (f x) as [[|]|]; simpl; split; try done; try (by intros [? ?]);
    by intros ?; split.
Qed.


Lemma isValidImport_true j :
  isValidImport (inject j) = Normal true ↔
  ∃ l, j = JArr l ∧ Forall (λ x, isValidSession (inject x) = Normal true) l.
Proof.
  destruct j as [| | | |l|]; try (split; [done|by intros (? & ? & _)]).
  cbn [inject isValidImport]. rewrite every_true, Forall_fmap. split.
  - intros H. by exists l.
  - by intros (? & [= <-] & H).
Qed.

End Importing.


Section ShapeOnly.
Context {R : Runtime} {L : RuntimeLaws R}.
Import ChatStorageService.

Lemma isValidSession_shapedRecord id name model temperature search_type messages :
  isValidSession (inject (shapedRecord id name model temperature search_type messages))
  = Normal true.
Proof. by destruct search_type. Qed.

(** C10: the validation looks at the shape only.  A payload of records
    with string [id] and [name], an array under [messages], a string
    [settings.model], a number [settings.temperature] and a known
    [settings.search_type] is imported, whatever the temperature (also
    outside [0, 1]) and whatever the elements of [messages] are. *)
Theorem importSessions_shape_only
    (records : list (string * string * string * Q * SearchType * list Json))
    (indent : nat) (w : World) :
  let payload :=
    JArr ((λ '(id, name, model, temperature, search_type, messages),
            shapedRecord id name model temperature search_type messages)
          <$> records) in
  importSessions (JSON_stringify indent payload) w
  = (Normal true, setStorage <[STORAGE_KEY := JSON_stringify 0 payload]> w).
Proof.
  intros payload.
  rewrite (importSessions_parsed _ payload w) by apply JSON_parse_stringify.
  assert (isValidImport (inject payload) = Normal true) as ->.
  { apply isValidImport_true. eexists. split; [done|].
    apply Forall_fmap, list.Forall_forall.
    intros [[[[[id name] model] temperature] search_type] messages] _.
    apply isValidSession_shapedRecord. }
  by rewrite toJSON_inject.
Qed.
End ShapeOnly.

Lemma importSessions_shape_only_witness :
  let R := sampleRuntime in
  let payload :=
    JArr [shapedRecord "a" "chat" "gpt-4o" 7 hybrid [JNull; JNum 3]] in
  ChatStorageService.importSessions (JSON_stringify 2 payload) emptyWorld
  = (Normal true,
     setStorage <[ChatStorageService.STORAGE_KEY := JSON_stringify 0 payload]> emptyWorld).
Proof.
  intros R payload.
  exact (@importSessions_shape_only sampleRuntime (concrete_laws _ _)
           [("a", "chat", "gpt-4o", 7%Q, hybrid, [JNull; JNum 3])] 2 emptyWorld).
Defined.

(** ** Updating a stored session *)

Section Updates.
Context {R : Runtime} {L : RuntimeLaws R}.
Import ChatStorageService.



Lemma stored_alter_sound f i l w :
  Forall sound l → (∀ s, sound s → sound (f s)) →
  stored (saved (alter f i l) w) = alter f i l.
Proof.
  intros Hl Hf. apply stored_saved_sound, Forall_alter; [done|].
  intros s _ Hs. by apply Hf.
Qed.

Lemma alter_insert (f : obj → obj) i (l : list obj) s :
  l !! i = Some s → alter f i l = <[i := f s]> l.
Proof.
  intros Hs. apply list_eq. intros j. destruct (decide (j = i)) as [->|Hj].
  - rewrite list_lookup_alter_eq, list_lookup_insert_eq by (by eapply lookup_lt_Some).
    by rewrite Hs.
  - by rewrite list_lookup_alter_ne, list_lookup_insert_ne.
Qed.


End Updates.

(** ** The retention cap *)

Section Retention.
Context {R : Runtime} {L : RuntimeLaws R}.
Import ChatStorageService.


(** One [createSession]: the new session goes in front, the list is cut to
    the cap, and what was stored before is read back after the write. *)
Lemma createSession_stored name settings w :
  stored (createSession name settings w).2
  = take MAX_SESSIONS (freshSession w name settings :: resave (stored w)).
Proof.
  rewrite createSession_run. cbn [snd].
  rewrite stored_saved, resave_take.
  2:{ constructor; [apply readable_sound, sound_freshSession|apply readable_stored]. }
  rewrite resave_cons; [done|apply sound_freshSession|apply readable_stored].
Qed.



End Retention.

(** ** Dates stay ordered and messages are only appended *)

Section Ordering.
Context {R : Runtime} {L : RuntimeLaws R}.
Import ChatStorageService.

Lemma sound_validDates s : sound s → validDates s = true.
Proof.
  intros ([c Hc] & [u Hu] & (ms & Hms & Hsound) & _).
  unfold validDates, createdAt, updatedAt, messagesOf, prop.
  rewrite Hc, Hu, Hms. cbn [default timeOf]. unfold id. cbn [timeOf].
  rewrite !bool_decide_eq_true_2 by by eexists. cbn [andb].
  apply forallb_forall. intros m Hm%list_elem_of_In.
  rewrite list.Forall_forall in Hsound.
  destruct (Hsound m Hm) as (o & -> & [t Ht] & _).
  apply bool_decide_eq_true_2. unfold timestampOf, prop. rewrite Ht. by eexists.
Qed.

Lemma sound_wellFormed w : Forall sound (stored w) → wellFormed w.
Proof.
  intros Hw. apply forallb_forall. intros s Hs%list_elem_of_In.
  rewrite list.Forall_forall in Hw. by apply sound_validDates, Hw.
Qed.

Lemma grows_refl s : grows s s.
Proof. split; [done|]. split; [done|]. exists []. by rewrite app_nil_r. Qed.

Lemma notFromFuture_later w w' s :
  monotone → (ticks w ≤ ticks w')%nat → notFromFuture w s → notFromFuture w' s.
Proof.
  intros Hmono Hle Hs c Hc. specialize (Hs c Hc). specialize (Hmono _ _ Hle). lia.
Qed.

(** An update of one stored session that keeps [id] and [createdAt],
    appends to [messages] at most and stamps [updatedAt] with a current
    reading of the clock. *)
Lemma alter_consistent w w' i f k :
  monotone → consistent w →
  stored w' = alter f i (stored w) →
  (ticks w ≤ k)%nat → (k ≤ ticks w')%nat →
  (∀ s, s ∈ stored w → sound s →
        sound (f s) ∧ updatedAt (f s) = Some (Date_now k) ∧ grows s (f s)) →
  consistent w'
  ∧ ∀ j s', stored w' !! j = Some s' → ∃ s, stored w !! j = Some s ∧ grows s s'.
Proof.
  intros Hmono (Hw%wellFormed_sound & Hord & Hfut) Hst Hk1 Hk2 Hf.
  assert (∀ x, stored w !! i = Some x → x ∈ stored w) as Hin.
  { intros x Hx. by eapply list_elem_of_lookup_2. }
  assert (∀ x, stored w !! i = Some x → sound x) as Hsx.
  { intros x Hx. rewrite list.Forall_forall in Hw. by apply Hw, Hin. }
  split; [split; [|split]|].
  - apply sound_wellFormed. rewrite Hst. apply Forall_alter; [done|].
    intros x Hx _. by apply Hf; auto.
  - rewrite Hst. apply Forall_alter; [done|].
    intros x Hx (c & u & Hc & Hu & Hcu).
    destruct (Hf x (Hin x Hx) (Hsx x Hx)) as (_ & Hu' & _ & Hc' & _).
    exists c, (Date_now k). split; [by rewrite Hc'|]. split; [done|].
    rewrite list.Forall_forall in Hfut. specialize (Hfut x (Hin x Hx) c Hc).
    specialize (Hmono _ _ Hk1). lia.
  - rewrite Hst. apply Forall_alter.
    + eapply list.Forall_impl; [exact Hfut|]. intros x Hx.
      eapply notFromFuture_later; [done| |done]. lia.
    + intros x Hx Hx' c Hc.
      destruct (Hf x (Hin x Hx) (Hsx x Hx)) as (_ & _ & _ & Hc' & _).
      rewrite Hc' in Hc. rewrite list.Forall_forall in Hfut.
      specialize (Hfut x (Hin x Hx) c Hc).
      assert (ticks w ≤ ticks w')%nat as Hle by lia.
      specialize (Hmono _ _ Hle). lia.
  - intros j s'. rewrite Hst, list_lookup_alter.
    destruct (decide (i = j)) as [<-|Hij].
    + destruct (stored w !! i) as [x|] eqn:Hx; [|done].
      intros [= <-]. exists x. split; [done|]. by apply Hf; auto.
    + intros Hs'. exists s'. split; [done|apply grows_refl].
Qed.

Lemma unchanged_consistent w :
  consistent w →
  consistent w
  ∧ ∀ j s', stored w !! j = Some s' → ∃ s, stored w !! j = Some s ∧ grows s s'.
Proof.
  intros Hw. split; [done|]. intros j s' Hs'. exists s'. split; [done|apply grows_refl].
Qed.

Lemma createdAt_insert_ne k v s :
  k ≠ "createdAt" → createdAt (<[k := v]> s) = createdAt s.
Proof. intros Hk. unfold createdAt, prop. by rewrite lookup_insert_ne. Qed.

Lemma messagesOf_insert_ne k v s :
  k ≠ "messages" → messagesOf (<[k := v]> s) = messagesOf s.
Proof. intros Hk. unfold messagesOf, prop. by rewrite lookup_insert_ne. Qed.

Lemma id_insert_ne k v s : k ≠ "id" → prop (<[k := v]> s) "id" = prop s "id".
Proof. intros Hk. unfold prop. by rewrite lookup_insert_ne. Qed.

Lemma grows_insert k v s :
  k ≠ "id" → k ≠ "createdAt" → k ≠ "messages" → grows s (<[k := v]> s).
Proof.
  intros. split; [by apply id_insert_ne|]. split; [by apply createdAt_insert_ne|].
  exists []. by rewrite app_nil_r, messagesOf_insert_ne.
Qed.

Lemma grows_trans s1 s2 s3 : grows s1 s2 → grows s2 s3 → grows s1 s3.
Proof.
  intros (Hi1 & Hc1 & m1 & Hm1) (Hi2 & Hc2 & m2 & Hm2).
  split; [congruence|]. split; [congruence|].
  exists (m1 ++ m2). by rewrite Hm2, Hm1, app_assoc.
Qed.

Lemma updatedAt_touch t s : updatedAt (<["updatedAt" := VDate (Some t)]> s) = Some t.
Proof. unfold updatedAt, prop. by rewrite lookup_insert_eq. Qed.

(** C4, as the code has it: with a clock that never runs backwards, in a
    store without invalid dates whose sessions have
    [updatedAt >= createdAt] and were not created in the future, each of
    [createSession], [updateSessionName], [addMessage] and
    [updateSessionSettings] leaves a store of the same kind, and every
    session that was stored before and is still stored has the same [id]
    and [createdAt] and the same messages, possibly followed by new
    ones. *)
Theorem operations_keep_order (op : Operation) (w : World) :
  monotone → consistent w →
  consistent (after op w)
  ∧ (∀ s, s ∈ stored (after op w) → datesOrdered s)
  ∧ ∀ i s', stored (after op w) !! (shift op + i)%nat = Some s' →
            ∃ s, stored w !! i = Some s ∧ grows s s'.
Proof.
  intros Hmono Hcons.
  cut (consistent (after op w)
       ∧ ∀ i s', stored (after op w) !! (shift op + i)%nat = Some s' →
                 ∃ s, stored w !! i = Some s ∧ grows s s').
  { intros [Hc Hg]. split; [done|]. split; [|done].
    intros s Hs. destruct Hc as (_ & Hord & _).
    rewrite list.Forall_forall in Hord. by apply Hord. }
  pose proof Hcons as (Hw & Hord & Hfut).
  pose proof (wellFormed_sound w Hw) as Hsound.
  destruct op as [name settings|sessionId name|sessionId message|sessionId settings];
    cbn [after shift Nat.add].
  - (* createSession *)
    assert (stored (createSession name settings w).2
            = take MAX_SESSIONS (freshSession w name settings :: stored w)) as Hst.
    { by rewrite createSession_stored, resave_sound. }
    assert (ticks (createSession name settings w).2 = (3 + ticks w)%nat) as Ht.
    { by rewrite createSession_run. }
    split; [split; [|split]|].
    + apply sound_wellFormed. rewrite Hst. apply Forall_take.
      constructor; [apply sound_freshSession|done].
    + rewrite Hst. apply Forall_take. constructor; [|done].
      exists (Date_now (S (ticks w))), (Date_now (S (S (ticks w)))).
      split; [done|]. split; [done|]. apply Hmono. lia.
    + rewrite Hst. apply Forall_take. constructor.
      * intros c [= <-]. rewrite Ht. apply Hmono. lia.
      * eapply list.Forall_impl; [exact Hfut|]. intros x Hx.
        eapply notFromFuture_later; [done| |done]. lia.
    + intros i s'. rewrite Hst. intros Hs'%lookup_take_Some.
      destruct Hs' as [Hs' _]. exists s'. split; [done|apply grows_refl].
  - (* updateSessionName *)
    destruct (findIndex sessionId (stored w)) as [i|] eqn:Hi.
    2:{ rewrite updateSessionName_missing by done. apply unchanged_consistent, Hcons. }
    rewrite (updateSessionName_run sessionId name w i Hi). cbn [snd].
    eapply (alter_consistent w _ i _ (ticks w)); [done|done| |done|cbn; lia|].
    + rewrite stored_alter_sound; [done|done|].
      intros s Hs. by apply sound_touch, sound_insert_plain.
    + intros s _ Hs. cbn [compose]. split; [by apply sound_touch, sound_insert_plain|].
      split; [apply updatedAt_touch|].
      eapply grows_trans; by apply grows_insert.
  - (* addMessage *)
    destruct (findIndex sessionId (stored w)) as [i|] eqn:Hi.
    2:{ rewrite addMessage_missing by done. apply unchanged_consistent, Hcons. }
    destruct (stored w !! i) as [s|] eqn:Hs.
    2:{ unfold findIndex in Hi. apply fmap_Some in Hi as ([i' x] & Hf & ->).
        apply list_find_Some in Hf as (Hx & _). cbn in Hs. congruence. }
    destruct (stored_messages w s) as [ms Hms]; [by eapply list_elem_of_lookup_2|].
    rewrite (addMessage_run sessionId message w i s ms Hi Hs Hms). cbn [snd].
    set (m := freshMessage w message).
    set (f := λ x : obj, <["updatedAt" := VDate (Some (Date_now (S (S (ticks w)))))]>
                          (<["messages" := VArr (messagesOf x ++ [VObj m])]> x)).
    assert (messagesOf s = ms) as Hmo.
    { unfold messagesOf, prop. by rewrite Hms. }
    assert (<[i := f s]> (stored w) = alter f i (stored w)) as Hfi.
    { symmetry. by apply alter_insert. }
    eapply (alter_consistent w _ i f (S (S (ticks w)))); [done|done| |lia|cbn; lia|].
    + rewrite <- Hfi. unfold f. rewrite Hmo. fold m.
      rewrite stored_saved_sound; [done|].
      apply Forall_insert; [done|]. apply sound_touch, sound_push; [apply soundMessage_fresh|done|].
      rewrite list.Forall_forall in Hsound. by eapply Hsound, list_elem_of_lookup_2.
    + intros x Hx Hsx. unfold f.
      destruct (stored_messages w x Hx) as [mx Hmx].
      assert (messagesOf x = mx) as -> by (by unfold messagesOf, prop; rewrite Hmx).
      split; [by apply sound_touch, sound_push; [apply soundMessage_fresh|..]|].
      split; [apply updatedAt_touch|].
      split; [by rewrite !id_insert_ne|]. split; [by rewrite !createdAt_insert_ne|].
      exists [VObj m]. rewrite messagesOf_insert_ne by done.
      unfold messagesOf, prop. rewrite lookup_insert_eq, Hmx. done.
  - (* updateSessionSettings *)
    destruct (findIndex sessionId (stored w)) as [i|] eqn:Hi.
    2:{ rewrite updateSessionSettings_missing by done. apply unchanged_consistent, Hcons. }
    rewrite (updateSessionSettings_run sessionId settings w i Hi). cbn [snd].
    eapply (alter_consistent w _ i _ (ticks w)); [done|done| |done|cbn; lia|].
    + rewrite stored_alter_sound; [done|done|].
      intros s Hs. by apply sound_touch, sound_mergeSettings.
    + intros s _ Hs. cbn [compose]. split; [by apply sound_touch, sound_mergeSettings|].
      split; [apply updatedAt_touch|].
      eapply grows_trans; by apply grows_insert.
Qed.
End Ordering.

(** ** Concrete runs *)

Lemma stored_sampleWorld :
  @stored sampleRuntime sampleWorld = [@freshSession sampleRuntime emptyWorld "chat" sampleSettings].
Proof. vm_compute. reflexivity. Qed.

Lemma wellFormed_sampleWorld : @wellFormed sampleRuntime sampleWorld.
Proof. vm_compute. reflexivity. Qed.




Lemma monotone_sampleRuntime : @monotone sampleRuntime.
Proof. intros i j Hij. simpl. lia. Qed.

Lemma consistent_sampleWorld : @consistent sampleRuntime sampleWorld.
Proof.
  split; [exact wellFormed_sampleWorld|]. rewrite stored_sampleWorld.
  split; (constructor; [|constructor]).
  - exists (1700000000000 + 1), (1700000000000 + 2). by vm_compute.
  - intros c [= <-]. by vm_compute.
Qed.

Lemma operations_keep_order_witness :
  let R := sampleRuntime in
  let op := AddMessage "loyw3v28k3j9x2" sampleMessage in
  consistent (after op sampleWorld)
  ∧ (∀ s, s ∈ stored (after op sampleWorld) → datesOrdered s)
  ∧ ∀ i s', stored (after op sampleWorld) !! (shift op + i)%nat = Some s' →
            ∃ s, stored sampleWorld !! i = Some s ∧ grows s s'.
Proof.
  intros R op.
  apply (@operations_keep_order sampleRuntime (concrete_laws _ _) op sampleWorld).
  - exact monotone_sampleRuntime.
  - exact consistent_sampleWorld.
Defined.

Section Imported.
Context {R : Runtime} {L : RuntimeLaws R}.
Import ChatStorageService.

(** What is read after an array of records has been written to the store. *)
Lemma stored_written n l w :
  stored (setStorage <[STORAGE_KEY := JSON_stringify n (JArr l)]> w)
  = match mapC reviveSession (inject <$> l) with
    | Normal l' => l'
    | Throw _ => []
    end.
Proof.
  rewrite stored_unfold. unfold setStorage. cbn [localStorage].
  rewrite lookup_insert_eq.
  destruct (JSON_stringify n (JArr l)) eqn:Hs.
  { by apply JSON_stringify_nonempty in Hs. }
  by rewrite <- Hs, parse_stringify.
Qed.

Lemma importSessions_valid payload w :
  isValidImport (inject payload) = Normal true →
  importSessions (JSON_stringify 0 payload) w
  = (Normal true, setStorage <[STORAGE_KEY := JSON_stringify 0 payload]> w).
Proof.
  intros Hv.
  rewrite (importSessions_parsed _ payload w) by apply JSON_parse_stringify.
  by rewrite Hv, toJSON_inject.
Qed.

(** Two imports in a row, on any run time: the second one is accepted
    although it puts [updatedAt] before [createdAt] and swaps the messages
    of the session. *)
Lemma importSessions_unchecked :
  let s1 := revivedSession firstRecord in
  let s2 := revivedSession secondRecord in
  let m1 := revivedMessage (sampleEntry "m1" 1) in
  let m2 := revivedMessage (sampleEntry "m2" 2) in
  ∃ w1 w2,
    importSessions (JSON_stringify 0 (JArr [firstRecord])) emptyWorld = (Normal true, w1)
    ∧ stored w1 = [s1] ∧ datesOrdered s1 ∧ messagesOf s1 = [m1; m2]
    ∧ importSessions (JSON_stringify 0 (JArr [secondRecord])) w1 = (Normal true, w2)
    ∧ stored w2 = [s2] ∧ prop s2 "id" = prop s1 "id"
    ∧ createdAt s2 = Some 2 ∧ updatedAt s2 = Some 1
    ∧ ¬ datesOrdered s2
    ∧ messagesOf s2 = [m2; m1] ∧ m1 ≠ m2
    ∧ ¬ grows s1 s2.
Proof.
  intros s1 s2 m1 m2.
  eexists _, _.
  split; [apply importSessions_valid; vm_compute; reflexivity|].
  split; [rewrite stored_written; vm_compute; reflexivity|].
  split; [exists 1, 2; vm_compute; repeat split; discriminate|].
  split; [vm_compute; reflexivity|].
  split; [apply importSessions_valid; vm_compute; reflexivity|].
  split; [rewrite stored_written; vm_compute; reflexivity|].
  split; [vm_compute; reflexivity|]. split; [vm_compute; reflexivity|].
  split; [vm_compute; reflexivity|].
  split.
  { intros (c & u & Hc & Hu & Hcu). vm_compute in Hc, Hu.
    injection Hc as <-. injection Hu as <-. lia. }
  split; [vm_compute; reflexivity|].
  split.
  { intros H. apply (f_equal timestampOf) in H. vm_compute in H. discriminate. }
  intros (_ & _ & more & Hmore).
  apply (f_equal (λ l, timestampOf <$> l !! 0%nat)) in Hmore.
  vm_compute in Hmore. discriminate.
Qed.
End Imported.

(** C4 as the specification states it does not hold for [importSessions]:
    the first import stores session ["a"] with two messages; the second
    import is accepted too, and afterwards the stored session ["a"] has
    [updatedAt] before [createdAt] and its two messages in the other
    order. *)
Lemma importSessions_breaks_order :
  let R := sampleRuntime in
  let s1 := revivedSession firstRecord in
  let s2 := revivedSession secondRecord in
  let m1 := revivedMessage (sampleEntry "m1" 1) in
  let m2 := revivedMessage (sampleEntry "m2" 2) in
  ∃ w1 w2,
    ChatStorageService.importSessions (JSON_stringify 0 (JArr [firstRecord])) emptyWorld
      = (Normal true, w1)
    ∧ stored w1 = [s1] ∧ datesOrdered s1 ∧ messagesOf s1 = [m1; m2]
    ∧ ChatStorageService.importSessions (JSON_stringify 0 (JArr [secondRecord])) w1
      = (Normal true, w2)
    ∧ stored w2 = [s2] ∧ prop s2 "id" = prop s1 "id"
    ∧ createdAt s2 = Some 2 ∧ updatedAt s2 = Some 1
    ∧ ¬ datesOrdered s2
    ∧ messagesOf s2 = [m2; m1] ∧ m1 ≠ m2
    ∧ ¬ grows s1 s2.
Proof. exact (@importSessions_unchecked sampleRuntime (concrete_laws _ _)). Qed.

(** ** Export and import *)

Section RoundTrip.
Context {R : Runtime} {L : RuntimeLaws R}.
Import ChatStorageService.

Lemma exportSessions_run w :
  exportSessions w =
  (Normal (mkDownload
             ("rag-chat-sessions-" +:+ format (Date_now (ticks w)) "yyyy-MM-dd-HH-mm"
              +:+ ".json")
             (JSON_stringify 2 (toJSON (sessionArray (stored w))))),
   advance 1 0 w).
Proof.
  unfold exportSessions.
  erewrite bind_Normal by apply getSessions_run.
  erewrite bind_Normal by apply now_run. done.
Qed.



End RoundTrip.



(** ** Identifiers *)

Section Strings.
Lemma string_app_cons c (s a : string) : String c s +:+ a = String c (s +:+ a).
Proof. done. Qed.

Lemma string_app_inj_l (s a b : string) : s +:+ a = s +:+ b → a = b.
Proof.
  induction s as [|c s IH]; [done|].
  rewrite !string_app_cons. intros [= H]. by apply IH.
Qed.

Lemma string_app_length_inj (s1 s2 a b : string) :
  String.length s1 = String.length s2 → s1 +:+ a = s2 +:+ b → s1 = s2 ∧ a = b.
Proof.
  revert s2. induction s1 as [|c s1 IH]; intros [|c' s2]; try done.
  rewrite !string_app_cons. cbn [String.length].
  intros [= Hlen] [= -> H]. destruct (IH s2 Hlen H) as [-> ->]. done.
Qed.

Lemma string_snoc_inj (s s' : string) c c' :
  s +:+ String c "" = s' +:+ String c' "" → s = s' ∧ c = c'.
Proof.
  revert s'. induction s as [|a s IH]; intros [|a' s']; rewrite ?string_app_cons.
  - by intros [= ->].
  - intros [= -> H]. by destruct s'.
  - intros [= -> H]. by destruct s.
  - intros [= -> H]. destruct (IH s' H) as [-> ->]. done.
Qed.

Lemma string_app_assoc (a b c : string) : (a +:+ b) +:+ c = a +:+ (b +:+ c).
Proof.
  induction a as [|x a IH]; [done|]. rewrite !string_app_cons. by rewrite IH.
Qed.

Lemma string_app_nil_inv (a b : string) : a +:+ b = "" → a = "" ∧ b = "".
Proof. by destruct a. Qed.
End Strings.

Section Base36.
Lemma digit36_inj (a b : Z) :
  0 ≤ a < 36 → 0 ≤ b < 36 → digit36 a = digit36 b → a = b.
Proof.
  intros Ha Hb.
  rewrite <- (Z2Nat.id a), <- (Z2Nat.id b) by lia.
  assert (Z.to_nat a < 36)%nat as Ha' by lia.
  assert (Z.to_nat b < 36)%nat as Hb' by lia.
  generalize dependent (Z.to_nat b). generalize dependent (Z.to_nat a).
  clear. intros n Hn m Hm. unfold digit36. rewrite !Nat2Z.id.
  do 36 (destruct n as [|n]; [do 36 (destruct m as [|m]; [done|]); lia|]). lia.
Qed.

Lemma digits36_acc fuel n acc : digits36 fuel n acc = digits36 fuel n "" +:+ acc.
Proof.
  revert n acc. induction fuel as [|fuel IH]; intros n acc; simpl; [done|].
  destruct (n / 36 =? 0)%Z; [done|].
  rewrite IH, (IH _ (String _ "")). by rewrite string_app_assoc.
Qed.

Lemma digits36_step fuel n :
  digits36 (S fuel) n "" =
  (if (n / 36 =? 0)%Z then "" else digits36 fuel (n / 36) "")
  +:+ String (digit36 (n mod 36)) "".
Proof. simpl. destruct (n / 36 =? 0)%Z; [done|]. apply digits36_acc. Qed.

Lemma digits36_nonempty fuel n : digits36 (S fuel) n "" ≠ "".
Proof.
  rewrite digits36_step. intros H%string_app_nil_inv. by destruct H.
Qed.

(** With enough fuel, different numbers have different digits. *)
Lemma digits36_inj fuel fuel' n m :
  0 ≤ n < 2 ^ Z.of_nat fuel → 0 ≤ m < 2 ^ Z.of_nat fuel' →
  digits36 fuel n "" = digits36 fuel' m "" → n = m.
Proof.
  revert fuel' n m. induction fuel as [|fuel IH]; intros fuel' n m Hn Hm.
  { simpl in Hn. assert (n = 0) as -> by lia. destruct fuel' as [|fuel'].
    - simpl in Hm. lia.
    - intros H. symmetry in H. by apply digits36_nonempty in H. }
  destruct fuel' as [|fuel'].
  { simpl in Hm. assert (m = 0) as -> by lia.
    intros H. by apply digits36_nonempty in H. }
  rewrite !digits36_step. intros [Hpre Hlast]%string_snoc_inj.
  apply digit36_inj in Hlast; [|by apply Z.mod_pos_bound..].
  rewrite Nat2Z.inj_succ, Z.pow_succ_r in Hn, Hm by lia.
  assert (0 ≤ n / 36 < 2 ^ Z.of_nat fuel) as Hn'.
  { split; [apply Z.div_pos; lia|]. apply Z.div_lt_upper_bound; lia. }
  assert (0 ≤ m / 36 < 2 ^ Z.of_nat fuel') as Hm'.
  { split; [apply Z.div_pos; lia|]. apply Z.div_lt_upper_bound; lia. }
  assert (n / 36 = m / 36) as Hdiv.
  { destruct (n / 36 =? 0)%Z eqn:En, (m / 36 =? 0)%Z eqn:Em.
    - apply Z.eqb_eq in En, Em. lia.
    - destruct fuel' as [|fuel'].
      + simpl in Hm'. apply Z.eqb_neq in Em. lia.
      + symmetry in Hpre. by apply digits36_nonempty in Hpre.
    - destruct fuel as [|fuel].
      + simpl in Hn'. apply Z.eqb_neq in En. lia.
      + by apply digits36_nonempty in Hpre.
    - by apply (IH fuel'). }
  rewrite (Z.div_mod n 36), (Z.div_mod m 36) by lia. lia.
Qed.

Lemma toString36_inj (n m : Z) :
  (0 ≤ n)%Z → (0 ≤ m)%Z → toString36 n = toString36 m → n = m.
Proof.
  intros Hn Hm. unfold toString36.
  destruct (Z.ltb_spec n 0), (Z.ltb_spec m 0); try lia.
  apply digits36_inj.
  - split; [done|]. rewrite Nat2Z.inj_succ, Z2Nat.id by apply Z.log2_nonneg.
    destruct (decide (n = 0)) as [->|]; [done|]. apply Z.log2_spec. lia.
  - split; [done|]. rewrite Nat2Z.inj_succ, Z2Nat.id by apply Z.log2_nonneg.
    destruct (decide (m = 0)) as [->|]; [done|]. apply Z.log2_spec. lia.
Qed.
End Base36.

Section Identifiers.
Context {R : Runtime}.
Import ChatStorageService.

(** C9, as the code has it: an identifier is the clock reading in base 36
    followed by the digits of a random number, and nothing checks it
    against the identifiers in use.  [createSession] and [addMessage]
    assign the identifier [generateId] returns.  Two calls that read the
    same clock value get different identifiers exactly when their random
    digits differ; two calls that read different clock values, not
    negative and with base-36 forms of the same length, get different
    identifiers. *)
Theorem generateId_distinct (w1 w2 : World) :
  generateId w1 = (Normal (freshId w1), advance 1 1 w1)
  ∧ (∀ name settings,
       (createSession name settings w1).1 = Normal (freshSession w1 name settings)
       ∧ freshSession w1 name settings !! "id" = Some (VStr (freshId w1)))
  ∧ (∀ message, freshMessage w1 message !! "id" = Some (VStr (freshId w1)))
  ∧ (Date_now (ticks w1) = Date_now (ticks w2) →
     (freshId w1 = freshId w2 ↔
      substr 2 (Math_random (draws w1)) = substr 2 (Math_random (draws w2))))
  ∧ ((0 ≤ Date_now (ticks w1))%Z → (0 ≤ Date_now (ticks w2))%Z →
     Date_now (ticks w1) ≠ Date_now (ticks w2) →
     String.length (toString36 (Date_now (ticks w1)))
     = String.length (toString36 (Date_now (ticks w2))) →
     freshId w1 ≠ freshId w2).
Proof.
  split; [apply generateId_run|]. split.
  { intros name settings. by rewrite createSession_run. }
  split.
  { intros message. unfold freshMessage.
    by rewrite lookup_insert_ne, lookup_insert_eq. }
  unfold freshId. split.
  - intros ->. split; [apply string_app_inj_l|by intros ->].
  - intros H1 H2 Hne Hlen Heq.
    apply string_app_length_inj in Heq as [Heq _]; [|done].
    by apply toString36_inj in Heq.
Qed.

(** When the clock and the random source repeat themselves, so do the
    identifiers. *)
Lemma createSession_repeats name1 name2 settings w t r :
  (∀ k, Date_now k = t) → (∀ k, Math_random k = r) →
  ∃ s1 s2 w1 w2,
    createSession name1 settings w = (Normal s1, w1)
    ∧ createSession name2 settings w1 = (Normal s2, w2)
    ∧ s1 !! "id" = Some (VStr (toString36 t +:+ substr 2 r))
    ∧ s2 !! "id" = Some (VStr (toString36 t +:+ substr 2 r)).
Proof.
  intros Hclock Hrandom. eexists _, _, _, _.
  split; [apply createSession_run|]. split; [apply createSession_run|].
  unfold freshSession, freshId. by rewrite !Hclock, !Hrandom.
Qed.
End Identifiers.

Lemma generateId_distinct_witness :
  let R := sampleRuntime in
  let w1 := emptyWorld in
  let w2 := sampleWorld in
  freshId w1 ≠ freshId w2.
Proof.
  intros R w1 w2.
  apply (proj2 (proj2 (proj2 (proj2 (@generateId_distinct sampleRuntime w1 w2))))).
  - vm_compute. discriminate.
  - vm_compute. discriminate.
  - vm_compute. discriminate.
  - vm_compute. reflexivity.
Defined.

(** C9 as the specification states it does not hold: two [createSession]
    calls made within the same millisecond, with a random source that
    returns the same number twice, give both sessions the same
    identifier. *)
Lemma createSession_same_id :
  let R := Concrete.runtime (λ _, 1700000000000) (λ _, "0.k3j9x2") in
  ∃ s1 s2 w1 w2,
    ChatStorageService.createSession "first" sampleSettings emptyWorld = (Normal s1, w1)
    ∧ ChatStorageService.createSession "second" sampleSettings w1 = (Normal s2, w2)
    ∧ s1 !! "id" = Some (VStr "loyw3v28k3j9x2")
    ∧ s2 !! "id" = Some (VStr "loyw3v28k3j9x2").
Proof.
  intros R.
  exact (@createSession_repeats R "first" "second" sampleSettings emptyWorld
           1700000000000 "0.k3j9x2" (λ _, eq_refl) (λ _, eq_refl)).
Qed.

(** ** The API client and the license key *)

Section Rejected.
Context {R : Runtime} {N : Network}.

Lemma rejected_not_ok r : rejected r → ok r = false.
Proof. unfold ok. by intros [-> | ->]. Qed.

Lemma rejected_test r :
  rejected r → ((status r =? 401)%nat || (status r =? 403)%nat) = true.
Proof. by intros [-> | ->]. Qed.

(** Building the error out of the response body has no effect, and ends
    in a [throw]. *)
Lemma error_thrown (r : Response) (fallback : string) (w : World) :
  ∃ e, (errorData ← jsonOrEmpty r; e ← errorOf errorData fallback;
        (throw e : M JsValue)) w = (Throw e, w).
Proof.
  unfold jsonOrEmpty, json, errorOf, tryCatch, lift, throw, mbind, M_bind, bind,
    mret, M_ret, ret.
  destruct (parse (text r)) as [v|?]; [destruct (get v "detail")|]; by eexists.
Qed.

Lemma clearKey_run w : LicenseService.clearKey w = (Normal tt, cleared w).
Proof. done. Qed.

Lemma getKey_run w :
  LicenseService.getKey w = (Normal (localStorage w !! LicenseService.STORAGE_KEY), w).
Proof. done. Qed.

Lemma getKey_cleared w : LicenseService.getKey (cleared w) = (Normal None, cleared w).
Proof. rewrite getKey_run. cbn [cleared localStorage]. by rewrite lookup_delete_eq. Qed.

Lemma stored_cleared w : stored (cleared w) = stored w.
Proof.
  rewrite !stored_unfold. cbn [cleared localStorage].
  by rewrite lookup_delete_ne.
Qed.

Lemma requestA_rejected r endpoint options w :
  (∀ url config, fetch url config = Responded r) → rejected r →
  ∃ e, ApiServiceA.request endpoint options w = (Throw e, cleared w).
Proof.
  intros Hfetch Hr. unfold ApiServiceA.request.
  erewrite bind_Normal by apply getKey_run.
  unfold tryCatch, doFetch. rewrite Hfetch.
  unfold mbind at 1, M_bind at 1, bind at 1, mret at 1, M_ret at 1, ret at 1.
  rewrite (rejected_not_ok r Hr), (rejected_test r Hr). cbn [negb].
  unfold mbind at 1, M_bind at 1, bind at 1. rewrite clearKey_run.
  destruct (error_thrown r (httpError r) (cleared w)) as (e & He).
  rewrite He. by exists e.
Qed.

Lemma uploadDocumentA_rejected r file sessionId w :
  (∀ url config, fetch url config = Responded r) → rejected r →
  ∃ e, ApiServiceA.uploadDocument file sessionId w = (Throw e, cleared w).
Proof.
  intros Hfetch Hr. unfold ApiServiceA.uploadDocument, tryCatch.
  erewrite bind_Normal by apply getKey_run.
  unfold doFetch. rewrite Hfetch.
  unfold mbind at 1, M_bind at 1, bind at 1, mret at 1, M_ret at 1, ret at 1.
  rewrite (rejected_not_ok r Hr), (rejected_test r Hr). cbn [negb].
  unfold mbind at 1, M_bind at 1, bind at 1. rewrite clearKey_run.
  destruct (error_thrown r (httpError r) (cleared w)) as (e & He).
  rewrite He. by exists e.
Qed.

(** In the first revision every method clears the stored key, and sends
    the [license:cleared] event, before it throws; the session data is
    not touched. *)
Lemma ApiServiceA_clears_key r (call : ApiServiceA.Call) w :
  (∀ url config, fetch url config = Responded r) → rejected r →
  ∃ e w', ApiServiceA.perform call w = (Throw e, w')
          ∧ LicenseService.getKey w' = (Normal None, w')
          ∧ dispatched w' = dispatched w ++ ["license:cleared"]
          ∧ (∀ key, key ≠ LicenseService.STORAGE_KEY →
                    localStorage w' !! key = localStorage w !! key)
          ∧ stored w' = stored w.
Proof.
  intros Hfetch Hr.
  assert (∃ e, ApiServiceA.perform call w = (Throw e, cleared w)) as [e He].
  { destruct call; cbn [ApiServiceA.perform];
      first [by apply (requestA_rejected r) | by apply (uploadDocumentA_rejected r)]. }
  exists e, (cleared w). split; [done|]. split; [apply getKey_cleared|].
  split; [done|]. split; [|apply stored_cleared].
  intros key Hkey. cbn [cleared localStorage]. by rewrite lookup_delete_ne.
Qed.

Lemma requestC_rejected r endpoint options w :
  (∀ url config, fetch url config = Responded r) → rejected r →
  ∃ e, ApiServiceC.request endpoint options w = (Throw e, w).
Proof.
  intros Hfetch Hr. unfold ApiServiceC.request, ApiServiceC.licenseKey.
  unfold mbind at 1, M_bind at 1, bind at 1.
  erewrite bind_Normal by apply getKey_run.
  unfold mret at 1, M_ret at 1, ret at 1.
  unfold tryCatch, doFetch. rewrite Hfetch.
  unfold mbind at 1, M_bind at 1, bind at 1, mret at 1, M_ret at 1, ret at 1.
  rewrite (rejected_not_ok r Hr). cbn [negb].
  destruct (status r =? 401)%nat.
  - destruct (error_thrown r "Unauthorized: Please check your license key" w)
      as (e & He).
    rewrite He. destruct e as [message| |]; try by eexists.
    unfold throw. destruct (includes "fetch" message); by eexists.
  - destruct (error_thrown r (httpError r) w) as (e & He).
    rewrite He. destruct e as [message| |]; try by eexists.
    unfold throw. destruct (includes "fetch" message); by eexists.
Qed.

Lemma uploadDocumentC_rejected r file sessionId w :
  (∀ url config, fetch url config = Responded r) → rejected r →
  ∃ e, ApiServiceC.uploadDocument file sessionId w = (Throw e, w).
Proof.
  intros Hfetch Hr. unfold ApiServiceC.uploadDocument, ApiServiceC.licenseKey.
  unfold mbind at 1, M_bind at 1, bind at 1.
  erewrite bind_Normal by apply getKey_run.
  unfold mret at 1, M_ret at 1, ret at 1.
  unfold tryCatch, doFetch. rewrite Hfetch.
  unfold mbind at 1, M_bind at 1, bind at 1, mret at 1, M_ret at 1, ret at 1.
  rewrite (rejected_not_ok r Hr). cbn [negb].
  destruct (error_thrown r (httpError r) w) as (e & He).
  rewrite He. by exists e.
Qed.

(** C1 on the third revision of the client: whatever method is called, a
    response with status 401 or 403 makes it throw and leaves the world as
    it was, so a stored license key is still stored, no [license:cleared]
    event is sent, and the session data is unchanged. *)
Theorem ApiServiceC_keeps_key r (call : ApiServiceC.Call) w :
  (∀ url config, fetch url config = Responded r) → rejected r →
  ∃ e, ApiServiceC.perform call w = (Throw e, w)
       ∧ LicenseService.getKey w
         = (Normal (localStorage w !! LicenseService.STORAGE_KEY), w).
Proof.
  intros Hfetch Hr.
  assert (∃ e, ApiServiceC.perform call w = (Throw e, w)) as [e He].
  { destruct call; cbn [ApiServiceC.perform];
      first [by apply (requestC_rejected r) | by apply (uploadDocumentC_rejected r)]. }
  exists e. split; [done|apply getKey_run].
Qed.
End Rejected.

Lemma ApiServiceC_keeps_key_witness :
  let R := sampleRuntime in
  let N := rejectingNetwork in
  ∃ e, ApiServiceC.perform ApiServiceC.GetHealth licensedWorld = (Throw e, licensedWorld)
       ∧ LicenseService.getKey licensedWorld
         = (Normal (localStorage licensedWorld !! LicenseService.STORAGE_KEY), licensedWorld).
Proof.
  intros R N.
  apply (@ApiServiceC_keeps_key sampleRuntime rejectingNetwork
           (mkResponse 401 "Unauthorized") ApiServiceC.GetHealth licensedWorld).
  - intros url config. reflexivity.
  - left. reflexivity.
Defined.

(** The same rejected request in the third and in the first revision: the
    third throws and the key [KEY-1] is still stored; the first throws with
    the key removed and the [license:cleared] event sent. *)
Lemma rejected_getHealth :
  let R := sampleRuntime in
  let N := rejectingNetwork in
  ApiServiceC.getHealth licensedWorld
  = (Throw (Error "Unauthorized: Please check your license key" false), licensedWorld)
  ∧ (LicenseService.getKey licensedWorld).1 = Normal (Some "KEY-1")
  ∧ ApiServiceC.uploadDocument "file" None licensedWorld
    = (Throw (Error "HTTP error! status: 401" false), licensedWorld)
  ∧ ApiServiceA.getHealth licensedWorld
    = (Throw (Error "HTTP error! status: 401" false),
       mkWorld ∅ 0 0 ["license:cleared"]).
Proof. intros R N. repeat split; vm_compute; reflexivity. Qed.

(** * Further properties

    ** Looking a session up *)

Section Lookup.
Context {R : Runtime}.
Import ChatStorageService.

Lemma getSession_run sessionId w :
  getSession sessionId w = (Normal (snd <$> list_find (hasId sessionId) (stored w)), w).
Proof. unfold getSession. by erewrite bind_Normal by apply getSessions_run. Qed.

(** X1: [getSession] reads the store without changing anything.  It
    answers [null] exactly when no stored session has the identifier, and
    otherwise the first session that has it: the one at the index
    [findIndex] gives, which is the session [updateSessionName], [addMessage]
    and [updateSessionSettings] would change. *)
Theorem getSession_first (sessionId : string) (w : World) :
  ∃ r, getSession sessionId w = (Normal r, w)
       ∧ (r = None ↔ Forall (λ s, ¬ hasId sessionId s) (stored w))
       ∧ ∀ s, r = Some s →
           hasId sessionId s
           ∧ ∃ i, findIndex sessionId (stored w) = Some i
                  ∧ stored w !! i = Some s
                  ∧ ∀ j s', (j < i)%nat → stored w !! j = Some s' → ¬ hasId sessionId s'.
Proof.
  eexists. split; [apply getSession_run|]. split.
  - rewrite fmap_None. apply list_find_None.
  - intros s Hs. apply fmap_Some in Hs as ([i s'] & Hfind & ->). cbn [snd].
    pose proof Hfind as (Hi & Hid & Hfirst)%list_find_Some.
    split; [done|]. exists i. unfold findIndex. rewrite Hfind. split; [done|].
    split; [done|]. intros j y Hj Hy. by eapply Hfirst.
Qed.

Context {L : RuntimeLaws R}.

End Lookup.


(** ** Deleting and renaming a session *)

Section Writes.
Context {R : Runtime} {L : RuntimeLaws R}.
Import ChatStorageService.





Lemma deleteSession_missing sessionId w :
  Forall (λ s, ¬ hasId sessionId s) (stored w) →
  deleteSession sessionId w = (Normal false, w).
Proof.
  intros Hno. unfold deleteSession.
  erewrite bind_Normal by apply getSessions_run.
  assert (filter (λ s, ¬ hasId sessionId s) (stored w) = stored w) as ->.
  { induction Hno as [|s l Hs _ IH]; [done|]. by rewrite filter_cons_True, IH. }
  by rewrite Nat.eqb_refl.
Qed.

Lemma deleteSession_run sessionId w s0 :
  s0 ∈ stored w → hasId sessionId s0 →
  deleteSession sessionId w
  = (Normal true, saved (filter (λ s, ¬ hasId sessionId s) (stored w)) w).
Proof.
  intros Hs0 Hid. unfold deleteSession.
  erewrite bind_Normal by apply getSessions_run.
  pose proof (length_filter_lt (λ s, ¬ hasId sessionId s) (stored w) s0 Hs0) as Hlt.
  destruct (Nat.eqb_spec (length (filter (λ s, ¬ hasId sessionId s) (stored w)))
              (length (stored w))) as [Heq|_].
  { exfalso. assert (¬ ¬ hasId sessionId s0) as Hnn by tauto. apply Hlt in Hnn. lia. }
  by erewrite bind_Normal by apply saveSessions_run.
Qed.


End Writes.

(** ** The number of sessions *)

Section Counting.
Context {R : Runtime} {L : RuntimeLaws R}.
Import ChatStorageService.









End Counting.

(** ** Sorting: the sample [Numerics] is lawful *)

Section InsertionSort.
Context {A : Type} (comparefn : A → A → option Q).

Lemma insertSorted_Permutation x l : insertSorted comparefn x l ≡ₚ x :: l.
Proof.
  induction l as [|y l IH]; [done|]. cbn [insertSorted].
  destruct (SortCompare comparefn x y); try done.
  rewrite IH. apply Permutation_swap.
Qed.

Lemma insertionSort_Permutation l : insertionSort comparefn l ≡ₚ l.
Proof.
  induction l as [|x l IH]; [done|]. cbn [insertionSort foldr].
  fold (insertionSort comparefn l). by rewrite insertSorted_Permutation, IH.
Qed.

Context (S : list A) (HS : consistentComparator comparefn S).

Lemma comparator_lt_gt a b :
  a ∈ S → b ∈ S → SortCompare comparefn a b = Lt → SortCompare comparefn b a = Gt.
Proof.
  intros Ha Hb Hab. destruct (SortCompare comparefn b a) eqn:Hba; [| |done].
  - apply (comparator_sym _ _ HS) in Hba; [congruence|done..].
  - pose proof (comparator_trans_lt _ _ HS a b a Ha Hb Ha Hab Hba) as Haa.
    rewrite (comparator_refl _ _ HS a Ha) in Haa. done.
Qed.

Lemma comparator_gt_lt a b :
  a ∈ S → b ∈ S → SortCompare comparefn a b = Gt → SortCompare comparefn b a = Lt.
Proof.
  intros Ha Hb Hab. destruct (SortCompare comparefn b a) eqn:Hba; [|done|].
  - apply (comparator_sym _ _ HS) in Hba; [congruence|done..].
  - pose proof (comparator_trans_gt _ _ HS a b a Ha Hb Ha Hab Hba) as Haa.
    rewrite (comparator_refl _ _ HS a Ha) in Haa. done.
Qed.

Let before (a b : A) : Prop := SortCompare comparefn b a ≠ Lt.

Lemma insertSorted_sorted x l :
  x ∈ S → l ⊆ S → StronglySorted before l →
  StronglySorted before (insertSorted comparefn x l).
Proof using HS.
  intros Hx Hl Hsorted. induction l as [|y l IH]; [by repeat constructor|].
  apply StronglySorted_cons in Hsorted as [Hy Hsorted].
  assert (y ∈ S) as HyS by (apply Hl; left).
  assert (l ⊆ S) as HlS by (intros z Hz; apply Hl; by right).
  cbn [insertSorted]. destruct (SortCompare comparefn x y) eqn:Hxy.
  - apply StronglySorted_cons. split; [|by apply StronglySorted_cons].
    constructor.
    { unfold before. by rewrite (comparator_sym _ _ HS x y Hx HyS Hxy). }
    rewrite list.Forall_forall in Hy. apply list.Forall_forall. intros z Hz.
    pose proof (Hy z Hz) as Hyz. unfold before in *. intros Hzx.
    assert (z ∈ S) as HzS by by apply HlS.
    destruct (SortCompare comparefn z y) eqn:Hzy; [|done|].
    + pose proof (comparator_sym _ _ HS x y Hx HyS Hxy) as Hyx.
      pose proof (comparator_trans_eq _ _ HS z y x HzS HyS Hx Hzy Hyx). congruence.
    + pose proof (comparator_gt_lt z y HzS HyS Hzy) as Hyz'.
      pose proof (comparator_trans_lt _ _ HS y z x HyS HzS Hx Hyz' Hzx) as Hyx.
      pose proof (comparator_sym _ _ HS x y Hx HyS Hxy). congruence.
  - apply StronglySorted_cons. split; [|by apply StronglySorted_cons].
    constructor.
    { unfold before. by rewrite (comparator_lt_gt x y Hx HyS Hxy). }
    rewrite list.Forall_forall in Hy. apply list.Forall_forall. intros z Hz.
    pose proof (Hy z Hz) as Hyz. unfold before in *. intros Hzx.
    assert (z ∈ S) as HzS by by apply HlS.
    apply Hyz. by apply (comparator_trans_lt _ _ HS z x y).
  - apply StronglySorted_cons. split; [|by apply IH].
    apply list.Forall_forall. intros z Hz.
    rewrite insertSorted_Permutation in Hz. apply elem_of_cons in Hz as [->|Hz].
    + unfold before. by rewrite Hxy.
    + rewrite list.Forall_forall in Hy. by apply Hy.
Qed.

Lemma insertionSort_sorted l :
  l ⊆ S → StronglySorted before (insertionSort comparefn l).
Proof using HS.
  induction l as [|x l IH]; intros Hl; [constructor|].
  cbn [insertionSort foldr]. fold (insertionSort comparefn l).
  apply insertSorted_sorted.
  - apply Hl. left.
  - intros z Hz. rewrite insertionSort_Permutation in Hz. apply Hl. by right.
  - apply IH. intros z Hz. apply Hl. by right.
Qed.

Lemma StronglySorted_lookup_lt (P : A → A → Prop) l (i j : nat) a b :
  StronglySorted P l → (i < j)%nat → l !! i = Some a → l !! j = Some b → P a b.
Proof.
  intros Hl. revert i j. induction Hl as [|x l Hl IH Hx]; intros i j Hij Hi Hj; [done|].
  destruct j as [|j]; [lia|]. cbn in Hj.
  destruct i as [|i].
  - injection Hi as <-. rewrite list.Forall_forall in Hx.
    by eapply Hx, list_elem_of_lookup_2.
  - cbn in Hi. apply (IH i j); [lia|done..].
Qed.
End InsertionSort.

#[global] Instance sampleNumerics_laws : SortLaws sampleNumerics.
Proof.
  split.
  - intros A comparefn l. apply insertionSort_Permutation.
  - intros A comparefn l Hc i j a b Hij Ha Hb.
    eapply (StronglySorted_lookup_lt (λ a b, SortCompare comparefn b a ≠ Lt)); [|done..].
    by apply (insertionSort_sorted comparefn l Hc).
Qed.

(** ** The statistics *)

Section SessionStatistics.
Context {R : Runtime} {E : Numerics}.
Import ChatStorageService.



Lemma SortCompare_dates (x y : Z) :
  SortCompare (λ a b, minus (getTime a) (getTime b)) (Some x) (Some y) = (x ?= y)%Z.
Proof.
  unfold SortCompare, minus, getTime. cbn.
  unfold Qcompare. cbn. rewrite !Z.mul_1_r.
  by rewrite Z.add_opp_r, <- Z.compare_sub.
Qed.

Lemma consistent_dates (l : list (option Z)) :
  Forall is_Some l →
  consistentComparator (λ a b, minus (getTime a) (getTime b)) l.
Proof.
  intros Hl. rewrite list.Forall_forall in Hl.
  split.
  - intros a b [x ->]%Hl [y ->]%Hl. by eexists.
  - intros a [x ->]%Hl. rewrite SortCompare_dates. apply Z.compare_refl.
  - intros a b [x ->]%Hl [y ->]%Hl. rewrite !SortCompare_dates.
    intros H%Z.compare_eq. subst. apply Z.compare_refl.
  - intros a b c [x ->]%Hl [y ->]%Hl [z ->]%Hl. rewrite !SortCompare_dates.
    intros H1%Z.compare_eq H2%Z.compare_eq. subst. apply Z.compare_refl.
  - intros a b c [x ->]%Hl [y ->]%Hl [z ->]%Hl. rewrite !SortCompare_dates.
    rewrite !Z.compare_lt_iff. lia.
  - intros a b c [x ->]%Hl [y ->]%Hl [z ->]%Hl. rewrite !SortCompare_dates.
    rewrite !Z.compare_gt_iff. lia.
Qed.

Context {SL : SortLaws E}.

(** X7: in a store that is not empty and whose sessions all have a valid
    [createdAt], [getSessionStats] leaves the world as it was and reports as
    [oldestSession] and [newestSession] two dates that are the [createdAt] of
    stored sessions and lie below and above the [createdAt] of every stored
    session. *)
Theorem getSessionStats_range (w : World) :
  stored w ≠ [] → Forall (λ s, is_Some (createdAt s)) (stored w) →
  ∃ st o n,
    getSessionStats w = (Normal st, w)
    ∧ oldestSession st = VDate (Some o) ∧ newestSession st = VDate (Some n)
    ∧ (∃ s, s ∈ stored w ∧ createdAt s = Some o)
    ∧ (∃ s, s ∈ stored w ∧ createdAt s = Some n)
    ∧ ∀ s, s ∈ stored w → ∃ c, createdAt s = Some c ∧ (o ≤ c ≤ n)%Z.
Proof.
  intros Hne Hvalid.
  unfold getSessionStats. erewrite bind_Normal by apply getSessions_run.
  destruct (stored w) as [|s0 l0] eqn:Hst; [done|]. rewrite <- Hst in *. clear Hne.
  assert ((length (stored w) =? 0)%nat = false) as -> by by rewrite Hst.
  set (cmp := λ a b : option Z, minus (getTime a) (getTime b)).
  set (dates := createdAt <$> stored w).
  pose proof (Array_sort_Permutation _ cmp dates) as Hperm.
  assert (Forall is_Some dates) as Hdates.
  { unfold dates. apply Forall_fmap. exact Hvalid. }
  pose proof (Array_sort_ordered _ cmp dates (consistent_dates dates Hdates)) as Hord.
  set (sorted := Array_sort cmp dates) in *.
  assert (∀ d, d ∈ sorted ↔ ∃ s, s ∈ stored w ∧ createdAt s = d) as Hmem.
  { intros d. rewrite Hperm. unfold dates. rewrite list_elem_of_fmap.
    split; intros (s & H1 & H2); exists s; by split. }
  assert (length sorted = length (stored w)) as Hlen.
  { rewrite Hperm. unfold dates. by rewrite length_fmap. }
  assert (∀ (i j : nat) x y, (i ≤ j)%nat → sorted !! i = Some (Some x) →
            sorted !! j = Some (Some y) → (x ≤ y)%Z) as Hle.
  { intros i j x y Hij Hi Hj. destruct (decide (i = j)) as [->|Hne].
    - rewrite Hi in Hj. injection Hj as <-. lia.
    - assert (i < j)%nat as Hlt by lia.
      pose proof (Hord i j _ _ Hlt Hi Hj) as H. rewrite SortCompare_dates in H.
      destruct (Z.compare_spec y x); [lia|done|lia]. }
  assert (∀ i d, sorted !! i = Some d → ∃ x, d = Some x) as Hsome.
  { intros i d Hd. apply list_elem_of_lookup_2 in Hd. rewrite Hperm in Hd.
    rewrite list.Forall_forall in Hdates. by destruct (Hdates d Hd) as [x ->]; eexists. }
  destruct (sorted !! 0%nat) as [d0|] eqn:H0.
  2:{ apply lookup_ge_None in H0. rewrite Hlen, Hst in H0. cbn in H0. lia. }
  destruct (Hsome _ _ H0) as [o ->].
  destruct (sorted !! pred (length sorted)) as [dn|] eqn:Hn.
  2:{ apply lookup_ge_None in Hn. rewrite Hlen, Hst in Hn. cbn in Hn. lia. }
  destruct (Hsome _ _ Hn) as [n ->].
  eexists _, o, n. split; [done|]. cbn [oldestSession newestSession].
  split; [by rewrite head_lookup, H0|].
  split; [by rewrite last_lookup, Hn|].
  split; [apply Hmem; by eapply list_elem_of_lookup_2|].
  split; [apply Hmem; by eapply list_elem_of_lookup_2|].
  intros s Hs.
  assert (createdAt s ∈ sorted) as Hin by (apply Hmem; by exists s).
  apply list_elem_of_lookup in Hin as [i Hi].
  destruct (Hsome _ _ Hi) as [c Hc]. rewrite Hc in Hi. exists c. split; [done|].
  pose proof (lookup_lt_Some _ _ _ Hi) as Hlt.
  split.
  - apply (Hle 0%nat i); [lia|done..].
  - apply (Hle i (pred (length sorted))); [lia|done..].
Qed.
End SessionStatistics.

Section StatsAfter.
Context {R : Runtime} {L : RuntimeLaws R} {E : Numerics}.
Import ChatStorageService.







End StatsAfter.

(** ** Dates that are not dates, and what an import leaves *)

Section Dates.
Context {R : Runtime} {L : RuntimeLaws R}.
Import ChatStorageService.



End Dates.

Section ImportedStore.
Context {R : Runtime} {L : RuntimeLaws R}.
Import ChatStorageService.



End ImportedStore.

(** ** The license key *)

Section License.
Context {R : Runtime}.
Import LicenseService.



Lemma isSpace_blank c : blank c → isSpace c = true.
Proof.
  unfold blank, isSpace. rewrite !elem_of_cons, elem_of_nil.
  intros [->|[->|[->|[->|[->|[->|[]]]]]]]; done.
Qed.

Lemma isSpace_printable c :
  (33 ≤ Ascii.nat_of_ascii c ≤ 126)%nat → isSpace c = false.
Proof.
  unfold isSpace. intros H.
  destruct (Nat.leb_spec 9 (Ascii.nat_of_ascii c)), (Nat.leb_spec (Ascii.nat_of_ascii c) 13),
    (Nat.eqb_spec (Ascii.nat_of_ascii c) 32); cbn; try done; lia.
Qed.

Lemma trimStart_blank s :
  Forall (λ c, isSpace c = true) (String.list_ascii_of_string s) → trimStart s = "".
Proof.
  induction s as [|c s IH]; [done|]. cbn. intros [Hc Hs]%Forall_cons_iff.
  rewrite Hc. by apply IH.
Qed.

Lemma trimStart_keeps s c :
  c ∈ String.list_ascii_of_string s → isSpace c = false →
  c ∈ String.list_ascii_of_string (trimStart s).
Proof.
  intros Hc Hns. induction s as [|d s IH]; [done|]. cbn in *.
  destruct (isSpace d) eqn:Hd; [|done].
  apply elem_of_cons in Hc as [->|Hc]; [congruence|]. by apply IH.
Qed.

Lemma elem_of_rev_app s t c :
  c ∈ String.list_ascii_of_string (String.rev_app s t)
  ↔ c ∈ String.list_ascii_of_string s ∨ c ∈ String.list_ascii_of_string t.
Proof.
  revert t. induction s as [|d s IH]; intros t; cbn.
  - rewrite elem_of_nil. tauto.
  - rewrite IH. cbn. rewrite !elem_of_cons. tauto.
Qed.

Lemma elem_of_rev_string s c :
  c ∈ String.list_ascii_of_string (String.rev s) ↔ c ∈ String.list_ascii_of_string s.
Proof. unfold String.rev. rewrite elem_of_rev_app. cbn. rewrite elem_of_nil. tauto. Qed.

Lemma trim_blank s :
  Forall (λ c, isSpace c = true) (String.list_ascii_of_string s) → trim s = "".
Proof. intros Hs. unfold trim. by rewrite (trimStart_blank s Hs). Qed.

Lemma trim_keeps s c :
  c ∈ String.list_ascii_of_string s → isSpace c = false →
  c ∈ String.list_ascii_of_string (trim s).
Proof.
  intros Hc Hns. unfold trim.
  apply elem_of_rev_string, trimStart_keeps; [|done].
  apply elem_of_rev_string, trimStart_keeps; done.
Qed.

(** X12: [isPresent] reads the store without changing it.  It is false
    when no key is stored and when the stored key is empty or made of ASCII
    white space only, and true as soon as the stored key holds a printable
    ASCII character. *)
Theorem isPresent_key (w : World) :
  ∃ b, isPresent w = (Normal b, w)
       ∧ (localStorage w !! LicenseService.STORAGE_KEY = None → b = false)
       ∧ (∀ key, localStorage w !! LicenseService.STORAGE_KEY = Some key →
            Forall blank (String.list_ascii_of_string key) → b = false)
       ∧ (∀ key c, localStorage w !! LicenseService.STORAGE_KEY = Some key →
            c ∈ String.list_ascii_of_string key →
            (33 ≤ Ascii.nat_of_ascii c ≤ 126)%nat → b = true).
Proof.
  unfold isPresent. erewrite bind_Normal by apply getKey_run.
  eexists. split; [reflexivity|].
  destruct (localStorage w !! LicenseService.STORAGE_KEY) as [k|]; [|by repeat split].
  split; [done|]. split.
  - intros key [= <-] Hblank. rewrite trim_blank; [by rewrite andb_false_r|].
    eapply list.Forall_impl; [exact Hblank|]. apply isSpace_blank.
  - intros key c [= <-] Hc Hprint.
    pose proof (trim_keeps k c Hc (isSpace_printable c Hprint)) as Hin.
    destruct k as [|d k]; [by apply elem_of_nil in Hc|]. cbn [String.eqb negb andb].
    destruct (trim (String d k)); [by apply elem_of_nil in Hin|done].
Qed.
End License.

(** ** The API client: what every call does *)

Ltac run_M :=
  unfold jsonOrEmpty, errorOf, json, tryCatch, doFetch, getItem, lift, throw,
    mbind, M_bind, bind, mret, M_ret, ret.

Ltac split_cases :=
  repeat match goal with
         | |- context [match ?x with _ => _ end] =>
             lazymatch x with
             | context [match _ with _ => _ end] => fail
             | _ => destruct x eqn:?
             end
         end.

Ltac unfold_api :=
  unfold ApiServiceA.request, ApiServiceA.uploadDocument,
    ApiServiceB.request, ApiServiceB.uploadDocument, ApiServiceB.licenseKey,
    ApiServiceC.request, ApiServiceC.uploadDocument, ApiServiceC.licenseKey,
    LicenseService.getKey, LicenseService.setKey, LicenseService.clearKey,
    removeItem, setItem, dispatchEvent;
  run_M.

Ltac each_call call :=
  destruct call;
  cbn [ApiServiceA.perform ApiServiceB.perform ApiServiceC.perform];
  unfold ApiServiceA.getHealth, ApiServiceA.processRAGQuery, ApiServiceA.getAllDocuments,
    ApiServiceA.updateSearchType, ApiServiceA.getRAGStatus,
    ApiServiceA.deleteSessionDocuments,
    ApiServiceB.getHealth, ApiServiceB.processRAGQuery, ApiServiceB.getAllDocuments,
    ApiServiceB.updateSearchType, ApiServiceB.getRAGStatus,
    ApiServiceB.deleteSessionDocuments, ApiServiceB.deleteDocumentsByFileName,
    ApiServiceC.getHealth, ApiServiceC.processRAGQuery, ApiServiceC.getAllDocuments,
    ApiServiceC.updateSearchType, ApiServiceC.getRAGStatus,
    ApiServiceC.deleteSessionDocuments, ApiServiceC.deleteDocumentsByFileName.

Section Untouched.
Context {R : Runtime} {N : Network}.

Lemma requestB_world endpoint options w :
  (ApiServiceB.request endpoint options w).2 = w.
Proof.
  unfold ApiServiceB.request, ApiServiceB.licenseKey. run_M. cbn.
  split_cases; done.
Qed.

Lemma uploadDocumentB_world file sessionId w :
  (ApiServiceB.uploadDocument file sessionId w).2 = w.
Proof.
  unfold ApiServiceB.uploadDocument, ApiServiceB.licenseKey. run_M. cbn.
  split_cases; done.
Qed.

Lemma requestC_world endpoint options w :
  (ApiServiceC.request endpoint options w).2 = w.
Proof.
  unfold ApiServiceC.request, ApiServiceC.licenseKey, LicenseService.getKey. run_M. cbn.
  split_cases; done.
Qed.

Lemma uploadDocumentC_world file sessionId w :
  (ApiServiceC.uploadDocument file sessionId w).2 = w.
Proof.
  unfold ApiServiceC.uploadDocument, ApiServiceC.licenseKey, LicenseService.getKey. run_M. cbn.
  split_cases; done.
Qed.

(** X13: the second and the third revision of the API client never
    write: whatever the method, the arguments and the behaviour of the
    network, the call leaves [localStorage], the clock and the events sent
    as they were. *)
Theorem ApiService_leaves_world (callB : ApiServiceB.Call) (callC : ApiServiceC.Call)
    (w : World) :
  (ApiServiceB.perform callB w).2 = w ∧ (ApiServiceC.perform callC w).2 = w.
Proof.
  split.
  - destruct callB; cbn [ApiServiceB.perform];
      first [apply requestB_world | apply uploadDocumentB_world].
  - destruct callC; cbn [ApiServiceC.perform];
      first [apply requestC_world | apply uploadDocumentC_world].
Qed.
End Untouched.

Section Answers.
Context {R : Runtime} {N : Network}.

(** X14: on a response with a status from 200 to 299, every method of
    the three revisions gives what [response.json()] gives, the parsed body
    or its SyntaxError, and changes nothing. *)
Theorem ApiService_returns_body (r : Response)
    (callA : ApiServiceA.Call) (callB : ApiServiceB.Call) (callC : ApiServiceC.Call)
    (w : World) :
  (∀ url config, fetch url config = Responded r) → ok r = true →
  ApiServiceA.perform callA w = (parse (text r), w)
  ∧ ApiServiceB.perform callB w = (parse (text r), w)
  ∧ ApiServiceC.perform callC w = (parse (text r), w).
Proof.
  intros Hfetch Hok. split; [|split].
  - each_call callA; unfold_api; cbn; rewrite Hfetch, Hok; cbn;
      by destruct (parse (text r)).
  - each_call callB; unfold_api; cbn; rewrite Hfetch, Hok; cbn;
      by destruct (parse (text r)).
  - each_call callC; unfold_api; cbn; rewrite Hfetch, Hok; cbn;
      unfold parse; destruct (JSON_parse (text r)); done.
Qed.


(** X16: when [fetch] itself fails, every method throws and changes
    nothing.  The first and the second revision throw the error of [fetch].
    So does the third, except that its JSON methods replace a [TypeError]
    whose message contains [fetch] by an [Error] flagged [isCorsError];
    [uploadDocument] does not. *)
Theorem ApiService_network_failure (e : Exn)
    (callA : ApiServiceA.Call) (callB : ApiServiceB.Call) (callC : ApiServiceC.Call)
    (w : World) :
  (∀ url config, fetch url config = Rejected e) →
  ApiServiceA.perform callA w = (Throw e, w)
  ∧ ApiServiceB.perform callB w = (Throw e, w)
  ∧ ApiServiceC.perform callC w
    = (Throw match callC, e with
             | ApiServiceC.UploadDocument _ _, _ => e
             | _, TypeError message =>
                 if includes "fetch" message then Error ApiServiceC.corsMessage true else e
             | _, _ => e
             end, w).
Proof.
  intros Hfetch. split; [|split].
  - each_call callA; unfold_api; cbn; by rewrite Hfetch.
  - each_call callB; unfold_api; cbn; by rewrite Hfetch.
  - each_call callC; unfold_api; cbn; rewrite Hfetch; cbn;
      destruct e as [message|message|message flag]; try done;
      by destruct (includes "fetch" message).
Qed.

(** X17: the only effect a method of the first revision can have is
    [clearKey], and it has none when the network never answers 401 or
    403. *)
Theorem ApiServiceA_clears_only_rejected (call : ApiServiceA.Call) (w : World) :
  ((ApiServiceA.perform call w).2 = w ∨ (ApiServiceA.perform call w).2 = cleared w)
  ∧ ((∀ url config r, fetch url config = Responded r → ¬ rejected r) →
     (ApiServiceA.perform call w).2 = w).
Proof.
  assert (∀ endpoint options,
            ((ApiServiceA.request endpoint options w).2 = w
             ∨ (ApiServiceA.request endpoint options w).2 = cleared w)
            ∧ ((∀ url config r, fetch url config = Responded r → ¬ rejected r) →
               (ApiServiceA.request endpoint options w).2 = w)) as Hrequest.
  { intros endpoint options. unfold_api. cbn.
    destruct (fetch _ _) as [r|e] eqn:Hfetch; cbn; [|split; [by left|done]].
    destruct (ok r); cbn; [destruct (parse (text r)); (split; [by left|done])|].
    destruct ((status r =? 401)%nat || (status r =? 403)%nat) eqn:Hst; cbn.
    - split.
      + right. destruct (parse (text r)) as [v|]; cbn; [|done].
        by destruct (get v "detail").
      + intros Hno. exfalso. apply (Hno _ _ _ Hfetch). unfold rejected.
        apply orb_true_iff in Hst as [H%Nat.eqb_eq|H%Nat.eqb_eq]; auto.
    - assert ((match parse (text r) with
               | Normal a => (Normal a, w)
               | Throw e => (Throw e, w)
               end).2 = w) by by destruct (parse (text r)).
      destruct (parse (text r)) as [v|]; cbn; [|split; [by left|done]].
      destruct (get v "detail"); (split; [by left|done]). }
  assert (∀ file sessionId,
            ((ApiServiceA.uploadDocument file sessionId w).2 = w
             ∨ (ApiServiceA.uploadDocument file sessionId w).2 = cleared w)
            ∧ ((∀ url config r, fetch url config = Responded r → ¬ rejected r) →
               (ApiServiceA.uploadDocument file sessionId w).2 = w)) as Hupload.
  { intros file sessionId. unfold_api. cbn.
    destruct (fetch _ _) as [r|e] eqn:Hfetch; cbn; [|split; [by left|done]].
    destruct (ok r); cbn; [destruct (parse (text r)); (split; [by left|done])|].
    destruct ((status r =? 401)%nat || (status r =? 403)%nat) eqn:Hst; cbn.
    - split.
      + right. destruct (parse (text r)) as [v|]; cbn; [|done].
        by destruct (get v "detail").
      + intros Hno. exfalso. apply (Hno _ _ _ Hfetch). unfold rejected.
        apply orb_true_iff in Hst as [H%Nat.eqb_eq|H%Nat.eqb_eq]; auto.
    - destruct (parse (text r)) as [v|]; cbn; [|split; [by left|done]].
      destruct (get v "detail"); (split; [by left|done]). }
  destruct call; cbn [ApiServiceA.perform]; first [apply Hrequest | apply Hupload].
Qed.
End Answers.

Section Headers.
Context {R : Runtime}.

(** X18: what the third revision sends.  For a call without headers
    of its own and without form data, [request] depends on the network only
    through the answer to one request: the given method and body sent to
    [API_BASE_URL + endpoint] with [Content-Type: application/json] and,
    exactly when a non-empty license key is stored, [X-License-Key] with
    that key.  [uploadDocument] depends on it only through the answer to a
    POST of the form to [/api/documents/upload] with that same
    [X-License-Key] header and no [Content-Type]. *)
Theorem ApiServiceC_sends_key
    (base : string) (enc : string → string)
    (fetch1 fetch2 : string → RequestInit → FetchResult)
    (endpoint : string) (options : RequestInit)
    (file : string) (sessionId : option string) (w : World) :
  let N1 := Build_Network base fetch1 enc in
  let N2 := Build_Network base fetch2 enc in
  let key := default "" (localStorage w !! "license_key") in
  let sent : gmap string string :=
    if String.eqb key "" then {[ "Content-Type" := "application/json" ]}
    else <["X-License-Key" := key]> {[ "Content-Type" := "application/json" ]} in
  let sentUpload : gmap string string :=
    if String.eqb key "" then ∅ else {[ "X-License-Key" := key ]} in
  headers options = None → isFormData (body options) = false →
  (fetch1 (base +:+ endpoint) (mkRequestInit (method options) (Some sent) (body options))
   = fetch2 (base +:+ endpoint) (mkRequestInit (method options) (Some sent) (body options)) →
   @ApiServiceC.request R N1 endpoint options w
   = @ApiServiceC.request R N2 endpoint options w)
  ∧ (fetch1 (base +:+ "/api/documents/upload")
       (mkRequestInit (Some "POST") (Some sentUpload) (Some (uploadForm file sessionId)))
     = fetch2 (base +:+ "/api/documents/upload")
         (mkRequestInit (Some "POST") (Some sentUpload) (Some (uploadForm file sessionId))) →
     @ApiServiceC.uploadDocument R N1 file sessionId w
     = @ApiServiceC.uploadDocument R N2 file sessionId w).
Proof.
  intros N1 N2 key sent sentUpload Hheaders Hbody. split.
  - intros Hsame. unfold_api. cbn. rewrite Hheaders, Hbody. cbn.
    rewrite lookup_empty. cbn. change LicenseService.STORAGE_KEY with "license_key".
    fold key. unfold sent, singletonM, map_singleton in Hsame.
    destruct (String.eqb key ""); by rewrite Hsame.
  - intros Hsame. unfold_api. cbn. change LicenseService.STORAGE_KEY with "license_key".
    fold key. unfold sentUpload in Hsame.
    unfold ApiServiceC.licenseHeader. by rewrite Hsame.
Qed.

Context {N : Network}.

(** X19: the second revision reads its key under [LICENSE_KEY], not
    under the [license_key] that [LicenseService] writes: what a method of
    this revision returns or throws is the same before and after [setKey],
    and before and after [clearKey]. *)
Theorem ApiServiceB_ignores_license_key (call : ApiServiceB.Call) (key : string)
    (w : World) :
  (ApiServiceB.perform call (LicenseService.setKey key w).2).1
  = (ApiServiceB.perform call w).1
  ∧ (ApiServiceB.perform call (LicenseService.clearKey w).2).1
    = (ApiServiceB.perform call w).1.
Proof.
  split.
  - each_call call; unfold_api; cbn; rewrite lookup_insert_ne by done;
      split_cases; done.
  - each_call call; unfold_api; cbn; rewrite lookup_delete_ne by done;
      split_cases; done.
Qed.
End Headers.

(** ** Components: the document selection and the upload session *)

Section Selection.
Import DocumentSelector.

(** X20: [toggleDocument] flips whether the file name is selected and
    leaves every other name selected or not as it was, in the same order.
    On a name that is not selected it appends it, and a second toggle gives
    the first selection back; on a selected name it removes every
    occurrence, so a second toggle puts the name last. *)
Theorem toggleDocument_flips (selectedDocuments : list string) (fileName : string) :
  let toggled := toggleDocument selectedDocuments fileName in
  (fileName ∈ toggled ↔ fileName ∉ selectedDocuments)
  ∧ (∀ name, name ≠ fileName → (name ∈ toggled ↔ name ∈ selectedDocuments))
  ∧ filter (λ name, name ≠ fileName) toggled
    = filter (λ name, name ≠ fileName) selectedDocuments
  ∧ (fileName ∉ selectedDocuments →
     toggled = selectedDocuments ++ [fileName]
     ∧ toggleDocument toggled fileName = selectedDocuments)
  ∧ (fileName ∈ selectedDocuments →
     toggleDocument toggled fileName = toggled ++ [fileName]).
Proof.
  intros toggled. unfold toggled, toggleDocument.
  assert (∀ l : list string, fileName ∉ l → filter (λ name, name ≠ fileName) l = l) as Hid.
  { intros l Hl. induction l as [|x l IH]; [done|].
    rewrite filter_cons_True; [|intros ->; apply Hl; left].
    rewrite IH; [done|]. intros H. apply Hl. by right. }
  assert (∀ l : list string, fileName ∉ filter (λ name, name ≠ fileName) l) as Hout.
  { intros l [H _]%list_elem_of_filter. done. }
  destruct (bool_decide_reflect (fileName ∈ selectedDocuments)) as [Hin|Hout'].
  - split; [split; [by intros ?%Hout|done]|].
    split.
    { intros name Hne. rewrite list_elem_of_filter. tauto. }
    split; [by rewrite Hid by apply Hout|].
    split; [done|]. intros _.
    by rewrite bool_decide_eq_false_2 by apply Hout.
  - split.
    { split; [done|]. intros _. apply elem_of_app. right. left. }
    split.
    { intros name Hne. rewrite elem_of_app, list_elem_of_singleton. tauto. }
    split.
    { rewrite filter_app, filter_cons_False, filter_nil, app_nil_r; [done|]. tauto. }
    split; [|done]. intros _. split; [done|].
    rewrite bool_decide_eq_true_2 by (apply elem_of_app; right; left).
    rewrite filter_app, filter_cons_False, filter_nil, app_nil_r by tauto.
    by apply Hid.
Qed.
End Selection.

Section UploadSession.
Context {R : Runtime}.
Import DocumentManager.





End UploadSession.

(** ** What the session store leaves alone *)

Section Frame.
Context {R : Runtime}.
Import ChatStorageService.

(** X22: no method of the session store touches a key of
    [localStorage] other than its own or sends an event; a call reads the
    clock at most three times and draws at most one random number; and
    [getSessions] and [getSession] leave the world exactly as it was. *)
Theorem ChatStorageService_frame (c : Command) (w : World) :
  (∀ key, key ≠ STORAGE_KEY → localStorage (run c w) !! key = localStorage w !! key)
  ∧ dispatched (run c w) = dispatched w
  ∧ (ticks w ≤ ticks (run c w) ≤ 3 + ticks w)%nat
  ∧ (draws w ≤ draws (run c w) ≤ 1 + draws w)%nat
  ∧ match c with
    | GetSessions | GetSession _ => run c w = w
    | _ => True
    end.
Proof.
  set (framed := λ w' : World,
    (∀ key, key ≠ STORAGE_KEY → localStorage w' !! key = localStorage w !! key)
    ∧ dispatched w' = dispatched w
    ∧ (ticks w ≤ ticks w' ≤ 3 + ticks w)%nat
    ∧ (draws w ≤ draws w' ≤ 1 + draws w)%nat).
  assert (framed w) as Hrefl by (unfold framed; repeat split; lia).
  assert (∀ l n m, (n ≤ 3)%nat → (m ≤ 1)%nat → framed (saved l (advance n m w)))
    as Hsaved.
  { intros l n m Hn Hm. unfold framed, saved, setStorage. cbn.
    split; [|repeat split; lia]. intros key Hkey. by rewrite lookup_insert_ne. }
  assert (∀ l, framed (saved l w)) as Hsaved0.
  { intros l. unfold framed, saved, setStorage. cbn.
    split; [|repeat split; lia]. intros key Hkey. by rewrite lookup_insert_ne. }
  assert (∀ text, framed (setStorage <[STORAGE_KEY := text]> w)) as Hwritten.
  { intros text. unfold framed, setStorage. cbn.
    split; [|repeat split; lia]. intros key Hkey. by rewrite lookup_insert_ne. }
  assert (framed (run c w)) as Hframed.
  { destruct c as [|sessionId|op|sessionId| | |content]; cbn [run].
    - by rewrite getSessions_run.
    - by rewrite getSession_run.
    - destruct op as [name settings|sessionId name|sessionId message|sessionId settings];
        cbn [after].
      + rewrite createSession_run. by apply Hsaved.
      + destruct (findIndex sessionId (stored w)) as [i|] eqn:Hi.
        * rewrite (updateSessionName_run _ _ _ _ Hi). apply Hsaved; lia.
        * by rewrite updateSessionName_missing.
      + destruct (findIndex sessionId (stored w)) as [i|] eqn:Hi.
        * pose proof Hi as Hi'. unfold findIndex in Hi'.
          apply fmap_Some in Hi' as ([i' s] & (Hs & _ & _)%list_find_Some & ->).
          cbn [fst] in *.
          destruct (stored_messages w s) as [ms Hms]; [by eapply list_elem_of_lookup_2|].
          rewrite (addMessage_run _ _ _ _ _ _ Hi Hs Hms). by apply Hsaved.
        * by rewrite addMessage_missing.
      + destruct (findIndex sessionId (stored w)) as [i|] eqn:Hi.
        * rewrite (updateSessionSettings_run _ _ _ _ Hi). apply Hsaved; lia.
        * by rewrite updateSessionSettings_missing.
    - destruct (decide (Forall (λ s, ¬ hasId sessionId s) (stored w))) as [Hno|Hsome].
      + by rewrite deleteSession_missing.
      + apply not_Forall_Exists in Hsome; [|apply _].
        apply Exists_exists in Hsome as (s0 & Hs0 & Hid).
        assert (hasId sessionId s0) as Hid'.
        { destruct (decide (hasId sessionId s0)) as [?|Hn]; [done|by destruct Hid]. }
        rewrite (deleteSession_run sessionId w s0 Hs0 Hid'). apply Hsaved0.
    - unfold framed, clearAllSessions, removeItem, setStorage. cbn.
      split; [|repeat split; lia]. intros key Hkey. by rewrite lookup_delete_ne.
    - rewrite exportSessions_run. unfold framed. cbn. repeat split; lia.
    - destruct (JSON_parse content) as [j|] eqn:Hj.
      + rewrite (importSessions_parsed content j w Hj).
        destruct (isValidImport (inject j)) as [[|]|]; try done. apply Hwritten.
      + by rewrite importSessions_unparseable. }
  destruct Hframed as (H1 & H2 & H3 & H4). repeat split; try done; try lia.
  destruct c; try done; cbn [run].
  - by rewrite getSessions_run.
  - by rewrite getSession_run.
Qed.
End Frame.

(** ** The shape of what is stored *)

Section Shape.
Context {R : Runtime}.
Import ChatStorageService.

Lemma typeof_string v : String.eqb (typeof v) "string" = true ↔ ∃ s, v = VStr s.
Proof. destruct v as [| |?|?|?|?|?|?]; cbn; split; try done; try (by intros [? ?]); by eexists. Qed.

Lemma typeof_number v : String.eqb (typeof v) "number" = true ↔ ∃ q, v = VNum q.
Proof. destruct v as [| |?|?|?|?|?|?]; cbn; split; try done; try (by intros [? ?]); by eexists. Qed.

Lemma search_type_known v :
  existsb (strictEqStr v) ["hybrid"; "semantic"; "keyword"] = true
  ↔ ∃ s, v = VStr s ∧ s ∈ ["hybrid"; "semantic"; "keyword"].
Proof.
  rewrite existsb_exists. split.
  - intros (k & Hk%list_elem_of_In & Heq).
    destruct v as [| |?|?|s|?|?|?]; try done. cbn in Heq.
    apply String.eqb_eq in Heq as ->. by exists k.
  - intros (s & -> & Hs). exists s. split; [by apply list_elem_of_In|].
    apply String.eqb_refl.
Qed.

Lemma isValidSession_shape (o : obj) :
  isValidSession (VObj o) = Normal true ↔ sessionShape o.
Proof.
  unfold isValidSession, sessionShape.
  cbn [truthy negb get mbind Completion_bind cbind].
  destruct (String.eqb (typeof (default VUndefined (o !! "id"))) "string") eqn:Hid; cbn [negb].
  2:{ split; [done|]. intros ([sid Hi] & _). by rewrite Hi in Hid. }
  apply typeof_string in Hid as [sid Hid].
  destruct (String.eqb (typeof (default VUndefined (o !! "name"))) "string") eqn:Hname;
    cbn [negb].
  2:{ split; [done|]. intros (_ & [name Hn] & _). by rewrite Hn in Hname. }
  apply typeof_string in Hname as [name Hname].
  destruct (isArray (default VUndefined (o !! "messages"))) eqn:Hms; cbn [negb].
  2:{ split; [done|]. intros (_ & _ & [ms Hm] & _). by rewrite Hm in Hms. }
  destruct (o !! "id") as [vid|] eqn:Ho1; [|done]. cbn in Hid. subst vid.
  destruct (o !! "name") as [vname|] eqn:Ho2; [|done]. cbn in Hname. subst vname.
  destruct (o !! "messages") as [[| |?|?|?|?|ms|?]|] eqn:Ho3; try done. clear Hms.
  cbn [default]. unfold Datatypes.id.
  destruct (o !! "settings") as [st|] eqn:Ho4; cbn [default truthy negb].
  2:{ split; [done|]. by intros (_ & _ & _ & so & ? & ? & ? & [=] & _). }
  unfold Datatypes.id.
  destruct (truthy st) eqn:Ht; cbn [negb].
  2:{ split; [done|]. intros (_ & _ & _ & so & ? & ? & ? & [= ->] & _). done. }
  destruct st as [| |?|?|?|?|?|so]; try done;
    try (cbn; split; [done|];
         by intros (_ & _ & _ & so & ? & ? & ? & [=] & _)).
  cbn [get mbind Completion_bind cbind].
  destruct (String.eqb (typeof (default VUndefined (so !! "model"))) "string") eqn:Hm;
    cbn [negb].
  2:{ split; [done|]. intros (_ & _ & _ & so' & ? & ? & ? & [= <-] & Hm' & _).
      by rewrite Hm' in Hm. }
  apply typeof_string in Hm as [m Hm].
  destruct (String.eqb (typeof (default VUndefined (so !! "temperature"))) "number") eqn:Htemp;
    cbn [negb].
  2:{ split; [done|]. intros (_ & _ & _ & so' & ? & ? & ? & [= <-] & _ & Ht' & _).
      by rewrite Ht' in Htemp. }
  apply typeof_number in Htemp as [q Hq].
  destruct (so !! "model") as [vm|] eqn:Hs1; [|done]. cbn in Hm. subst vm.
  destruct (so !! "temperature") as [vq|] eqn:Hs2; [|done]. cbn in Hq. subst vq.
  split.
  - intros [= Hst]. apply search_type_known in Hst as (s & Hs & Hknown).
    destruct (so !! "search_type") as [vs|] eqn:Hs3; [|done]. cbn in Hs. subst vs.
    split; [by eexists|]. split; [by eexists|]. split; [by eexists|].
    by exists so, m, q, s.
  - intros (_ & _ & _ & so' & m' & q' & s & [= <-] & _ & _ & Hs3 & Hknown).
    f_equal. apply search_type_known. exists s. by rewrite Hs3.
Qed.

Lemma isValidSession_object (v : JsValue) :
  isValidSession v = Normal true → ∃ o, v = VObj o ∧ sessionShape o.
Proof.
  destruct v as [| |b|q|s|t|l|o]; try done.
  - by destruct b.
  - unfold isValidSession. cbn. by destruct (Qeq_bool q 0).
  - unfold isValidSession. cbn. by destruct (String.eqb s "").
  - intros H%isValidSession_shape. by exists o.
Qed.

(** X23: [isValidSession] never throws, and it accepts exactly the
    objects with a string [id], a string [name], an array under [messages]
    and under [settings] an object with a string [model], a number
    [temperature] and a [search_type] among [hybrid], [semantic] and
    [keyword]; every other value, [null], a number, a string or an array
    among them, is rejected. *)
Theorem isValidSession_accepts (v : JsValue) :
  ∃ b, isValidSession v = Normal b
       ∧ (b = true ↔ ∃ o, v = VObj o ∧ sessionShape o).
Proof.
  destruct (isValidSession_total v) as [b Hb]. exists b. split; [done|]. split.
  - intros ->. by apply isValidSession_object.
  - intros (o & -> & Ho%isValidSession_shape). congruence.
Qed.













Context {L : RuntimeLaws R}.

End Shape.

(** ** Concrete runs of the further properties *)





Lemma getSessionStats_range_witness :
  let R := sampleRuntime in
  let E := sampleNumerics in
  ∃ st o n,
    getSessionStats sampleWorld = (Normal st, sampleWorld)
    ∧ oldestSession st = VDate (Some o) ∧ newestSession st = VDate (Some n)
    ∧ (∃ s, s ∈ stored sampleWorld ∧ createdAt s = Some o)
    ∧ (∃ s, s ∈ stored sampleWorld ∧ createdAt s = Some n)
    ∧ ∀ s, s ∈ stored sampleWorld → ∃ c, createdAt s = Some c ∧ (o ≤ c ≤ n)%Z.
Proof.
  intros R E.
  apply (@getSessionStats_range sampleRuntime sampleNumerics sampleNumerics_laws sampleWorld).
  - rewrite stored_sampleWorld. discriminate.
  - rewrite stored_sampleWorld. constructor; [|constructor].
    exists (1700000000000 + 1). vm_compute. reflexivity.
Defined.





Lemma ApiService_returns_body_witness :
  let R := sampleRuntime in
  let r := mkResponse 200 (JSON_stringify 0 (JObj {[ "status" := JStr "ok" ]})) in
  let N := answeringNetwork r in
  ApiServiceA.perform ApiServiceA.GetHealth licensedWorld = (parse (text r), licensedWorld)
  ∧ ApiServiceB.perform ApiServiceB.GetHealth licensedWorld = (parse (text r), licensedWorld)
  ∧ ApiServiceC.perform ApiServiceC.GetHealth licensedWorld = (parse (text r), licensedWorld).
Proof.
  intros R r N.
  apply (@ApiService_returns_body sampleRuntime (answeringNetwork r) r).
  - intros url config. reflexivity.
  - reflexivity.
Defined.


Lemma ApiService_network_failure_witness :
  let R := sampleRuntime in
  let e := TypeError "Failed to fetch" in
  let N := failingNetwork e in
  ApiServiceA.perform ApiServiceA.GetHealth licensedWorld = (Throw e, licensedWorld)
  ∧ ApiServiceB.perform ApiServiceB.GetHealth licensedWorld = (Throw e, licensedWorld)
  ∧ ApiServiceC.perform ApiServiceC.GetHealth licensedWorld
    = (Throw (if includes "fetch" "Failed to fetch"
              then Error ApiServiceC.corsMessage true else e), licensedWorld).
Proof.
  intros R e N.
  apply (@ApiService_network_failure sampleRuntime (failingNetwork e) e
           ApiServiceA.GetHealth ApiServiceB.GetHealth ApiServiceC.GetHealth licensedWorld).
  intros url config. reflexivity.
Defined.

Lemma ApiServiceA_clears_only_rejected_witness :
  let R := sampleRuntime in
  let N := answeringNetwork (mkResponse 500 "oops") in
  (ApiServiceA.perform ApiServiceA.GetHealth licensedWorld).2 = licensedWorld.
Proof.
  intros R N.
  apply (proj2 (@ApiServiceA_clears_only_rejected sampleRuntime
                  (answeringNetwork (mkResponse 500 "oops"))
                  ApiServiceA.GetHealth licensedWorld)).
  intros url config r [= <-] [H|H]; discriminate H.
Defined.

Lemma ApiServiceC_sends_key_witness :
  let R := sampleRuntime in
  let base := "http://localhost:8000" in
  let lenient : string → RequestInit → FetchResult :=
    λ _ _, Responded (mkResponse 200 "{}") in
  let strict : string → RequestInit → FetchResult :=
    λ _ config,
      match headers config ≫= (λ h, h !! "X-License-Key") with
      | Some "KEY-1" => Responded (mkResponse 200 "{}")
      | _ => Responded (mkResponse 401 "Unauthorized")
      end in
  @ApiServiceC.request R (Build_Network base strict id) "/health"
     ApiServiceC.noOptions licensedWorld
  = @ApiServiceC.request R (Build_Network base lenient id) "/health"
      ApiServiceC.noOptions licensedWorld
  ∧ @ApiServiceC.uploadDocument R (Build_Network base strict id) "file" None licensedWorld
    = @ApiServiceC.uploadDocument R (Build_Network base lenient id) "file" None
        licensedWorld.
Proof.
  intros R base lenient strict.
  destruct (@ApiServiceC_sends_key sampleRuntime base id strict lenient "/health"
              ApiServiceC.noOptions "file" None licensedWorld eq_refl eq_refl)
    as [Hrequest Hupload].
  split; [apply Hrequest|apply Hupload]; vm_compute; reflexivity.
Defined.

